(** * A shallow embedding of [wa_local_api/wa_http_server.js]

    The local HTTP gateway in front of a whatsapp-web.js session: the
    profile-directory resolver ([pickProfileDir] and its helpers), the
    session state driven by the client's lifecycle events, the phone
    normalizer [normPhone], and the handlers of [GET /status],
    [POST /send] and [POST /bulk].

    Effects are explicit.  A handler is a computation in the monad [Eff],
    which threads a state and may throw; the filesystem, the clock, the
    session object and the timer are part of that state or inputs. *)

From Stdlib Require Import ZArith Ascii.
From stdpp Require Import base option list strings gmap.

Open Scope Z_scope.

(* [set_solver] clears hypotheses by name and warns when one is gone. *)
#[local] Set Warnings "-clear-no-such-hyp".

(* ===================================================================== *)
(** * JavaScript values as they come out of [JSON.parse]                  *)
(* ===================================================================== *)

(** A JSON number is an IEEE-754 double.  The program looks at a number
    in two ways only: its truthiness ([+0] and [-0] are falsy, JSON has
    no NaN) and its rendering by [Number::toString].  The double itself
    is left out; a number stands for these two observations. *)
Record JsNumber := { num_is_zero : bool; num_text : string }.

(** Strings are sequences of bytes (the UTF-8 form of the request).  The
    only character classes the program tests are the ASCII digits, and no
    byte of a multi-byte UTF-8 sequence is an ASCII digit, so a digit
    test by byte agrees with the source's test by UTF-16 code unit. *)
Unset Elimination Schemes.
Inductive JsVal :=
  | JUndefined
  | JNull
  | JBool (b : bool)
  | JNum (n : JsNumber)
  | JStr (s : string)
  | JArr (elems : list JsVal)
  | JObj (props : list (string * JsVal)).
Set Elimination Schemes.

(** A thrown [Error] object: its [name] and its [message]. *)
Record Thrown := Throw { err_name : string; err_message : string }.

(** [e?.message || String(e)] for an [Error] object: the message when it
    is not empty, otherwise [Error.prototype.toString], which for an empty
    message is the name. *)
Definition error_text (e : Thrown) : string :=
  match err_message e with
  | EmptyString => err_name e
  | m => m
  end.

(** The wording of the engine's own [TypeError]s is V8's; nothing below
    depends on it. *)
Definition cannot_convert : Thrown :=
  Throw "TypeError" "Cannot convert object to primitive value".
Definition not_a_function (what : string) : Thrown :=
  Throw "TypeError" (what +:+ " is not a function").
Definition cannot_read (base key : string) : Thrown :=
  Throw "TypeError"
        ("Cannot read properties of " +:+ base +:+ " (reading '" +:+ key +:+ "')").

Definition str_empty (s : string) : bool :=
  match s with EmptyString => true | String _ _ => false end.

(** ToBoolean. *)
Definition truthy (v : JsVal) : bool :=
  match v with
  | JUndefined | JNull => false
  | JBool b => b
  | JNum n => negb (num_is_zero n)
  | JStr s => negb (str_empty s)
  | JArr _ | JObj _ => true
  end.

(** [a || b] *)
Definition js_or (a b : JsVal) : JsVal := if truthy a then a else b.

Fixpoint own_prop (k : string) (props : list (string * JsVal)) : option JsVal :=
  match props with
  | [] => None
  | (k', v) :: rest => if String.eqb k k' then Some v else own_prop k rest
  end.

(** [v.key] for the three property names the handlers read, ["phone"],
    ["message"] and ["items"].  None of them is defined on a prototype,
    so the lookup is the own-property lookup on an object and [undefined]
    on an array or a primitive; on [null] and [undefined] it throws. *)
Definition get_prop (v : JsVal) (key : string) : Thrown + JsVal :=
  match v with
  | JUndefined => inl (cannot_read "undefined" key)
  | JNull => inl (cannot_read "null" key)
  | JObj props => inr (default JUndefined (own_prop key props))
  | JBool _ | JNum _ | JStr _ | JArr _ => inr JUndefined
  end.

(** [Array.prototype.join] with the default separator: the elements are
    converted by [str], [null] and [undefined] giving the empty string,
    and written with commas in between. *)
Fixpoint join_elements (str : JsVal → Thrown + string) (l : list JsVal)
  : Thrown + string :=
  match l with
  | [] => inr ""
  | x :: rest =>
      match
        match x with
        | JUndefined | JNull => inr ""
        | _ => str x
        end
      with
      | inl e => inl e
      | inr s =>
          match rest with
          | [] => inr s
          | _ :: _ =>
              match join_elements str rest with
              | inl e => inl e
              | inr t => inr (s +:+ "," +:+ t)
              end
          end
      end
  end.

(** [String(v)], the abstract operation ToString.  An array is joined.
    An object parsed from JSON has [Object.prototype]; when it carries an
    own ["toString"] property, that value is never callable and
    OrdinaryToPrimitive, after [valueOf] fails to give a primitive, throws
    a [TypeError]. *)
Fixpoint js_String (v : JsVal) : Thrown + string :=
  match v with
  | JUndefined => inr "undefined"
  | JNull => inr "null"
  | JBool true => inr "true"
  | JBool false => inr "false"
  | JNum n => inr (num_text n)
  | JStr s => inr s
  | JArr elems => join_elements js_String elems
  | JObj props =>
      match own_prop "toString" props with
      | Some _ => inl cannot_convert
      | None => inr "[object Object]"
      end
  end.

(** [v.toString()], the method call.  On the primitives and on arrays it
    is ToString; on an object with an own ["toString"] property the call
    of a non-function throws. *)
Definition toString_method (v : JsVal) : Thrown + string :=
  match v with
  | JUndefined => inl (cannot_read "undefined" "toString")
  | JNull => inl (cannot_read "null" "toString")
  | JObj props =>
      match own_prop "toString" props with
      | Some _ => inl (not_a_function "(intermediate value).toString")
      | None => inr "[object Object]"
      end
  | _ => js_String v
  end.

(** The conversion of [v] to a string throws nothing: [v] is no object
    with a ["toString"] property of its own, and no array that holds one
    (at any depth of arrays). *)
Fixpoint stringifiable (v : JsVal) : bool :=
  match v with
  | JArr elems => forallb stringifiable elems
  | JObj props =>
      match own_prop "toString" props with
      | Some _ => false
      | None => true
      end
  | _ => true
  end.

(** The handlers convert a value only when it is truthy. *)
Definition converts (v : JsVal) : bool := negb (truthy v) || stringifiable v.

(* ===================================================================== *)
(** * The phone normalizer                                                *)
(* ===================================================================== *)

Definition is_digit (c : ascii) : bool :=
  let n := N_of_ascii c in ((48 <=? n) && (n <=? 57))%N.

(** [s.replace(/\D+/g, repl)]: scanning from the left, every maximal run
    of non-digits is one match and is replaced by [repl]; [in_run] tells
    that the previous character already belongs to the current match. *)
Fixpoint replace_nondigit_runs (repl : string) (in_run : bool) (s : string)
  : string :=
  match s with
  | EmptyString => EmptyString
  | String c rest =>
      if is_digit c then String c (replace_nondigit_runs repl false rest)
      else if in_run then replace_nondigit_runs repl true rest
      else repl +:+ replace_nondigit_runs repl true rest
  end.

(** [d.startsWith("00")] and [d.slice(2)]. *)
Fixpoint startsWith (p d : string) : bool :=
  match p, d with
  | EmptyString, _ => true
  | String _ _, EmptyString => false
  | String a p', String b d' => Ascii.eqb a b && startsWith p' d'
  end.

Fixpoint slice_from (n : nat) (d : string) : string :=
  match n, d with
  | O, _ => d
  | S _, EmptyString => EmptyString
  | S n', String _ rest => slice_from n' rest
  end.

(** <<
    function normPhone(raw) {
      if (!raw) return "";
      let d = String(raw).replace(/\D+/g, "");
      if (d.startsWith("00")) d = d.slice(2);
      return d;
    }
    >> *)
Definition normPhone (raw : JsVal) : Thrown + string :=
  if negb (truthy raw) then inr ""
  else
    match js_String raw with
    | inl e => inl e
    | inr s =>
        let d := replace_nondigit_runs "" false s in
        inr (if startsWith "00" d then slice_from 2 d else d)
    end.

(** The normalizer in the specification's words: keep the digits, then
    drop one leading ["00"]. *)
Fixpoint digits_only (s : string) : string :=
  match s with
  | EmptyString => EmptyString
  | String c rest =>
      if is_digit c then String c (digits_only rest) else digits_only rest
  end.

Definition strip_trunk_prefix (d : string) : string :=
  match d with
  | String "0" (String "0" rest) => rest
  | _ => d
  end.

Fixpoint all_digits (s : string) : bool :=
  match s with
  | EmptyString => true
  | String c rest => is_digit c && all_digits rest
  end.

(* ===================================================================== *)
(** * Effects: a state that is threaded, and exceptions                   *)
(* ===================================================================== *)

(** A computation over a state [S] returns a value or throws, and leaves
    a state behind in both cases (what was done before a [throw] stays
    done). *)
Definition Eff (S A : Type) : Type := S → (Thrown + A) * S.

Global Instance Eff_ret {S} : MRet (Eff S) := λ A a s, (inr a, s).

Global Instance Eff_bind {S} : MBind (Eff S) := λ A B f m s,
  match m s with
  | (inl e, s') => (inl e, s')
  | (inr a, s') => f a s'
  end.

(** A pure step that may throw. *)
Definition lift {S A} (r : Thrown + A) : Eff S A := λ s, (r, s).

(** [try { body } catch (e) { handler }] *)
Definition try_catch {S A} (body : Eff S A) (handler : Thrown → Eff S A)
  : Eff S A := λ s,
  match body s with
  | (inl e, s') => handler e s'
  | (inr a, s') => (inr a, s')
  end.

(* ===================================================================== *)
(** * Configuration                                                       *)
(* ===================================================================== *)

(** A path is the list of its components, [path.join] appends one. *)
Definition path := list string.

Definition path_join (dir : path) (name : string) : path := dir ++ [name].

(** [__dirname], and the values read from the environment at start-up:
    [CLIENT_ID] and [RATE_DELAY_MS] (the result of [parseInt]; a NaN
    behaves in the one test [RATE_DELAY_MS > 0] like a value that is not
    positive). *)
Record Config := {
  dirname : path;
  CLIENT_ID : string;
  RATE_DELAY_MS : Z
}.

Definition PROFILES_ROOT (cfg : Config) : path :=
  path_join (dirname cfg) ".chrome_profiles".

Definition DEFAULT_PROFILE_NAME (cfg : Config) : string := CLIENT_ID cfg.

(* ===================================================================== *)
(** * The filesystem and the profile-directory resolver                   *)
(* ===================================================================== *)

(** The filesystem as the resolver sees it: the set of paths that exist
    (those for which [fs.existsSync] answers [true]), and the set of paths
    on which a creation or a removal fails (a marker held by a running
    browser, an entry of a directory that is not writable). *)
Record Fs := { entries : gset path; denied : gset path }.

Definition EACCES : Thrown := Throw "Error" "EACCES: permission denied".

(** [fs.existsSync(p)]; it never throws. *)
Definition existsSync (p : path) : Eff Fs bool := λ fs,
  (inr (bool_decide (p ∈ entries fs)), fs).

(** [fs.rmSync(p, { force: true })] *)
Definition rmSync (p : path) : Eff Fs unit := λ fs,
  if bool_decide (p ∈ denied fs) then (inl EACCES, fs)
  else (inr tt, {| entries := entries fs ∖ {[p]}; denied := denied fs |}).

(** The directories [mkdir -p] visits: every ancestor, then the path. *)
Fixpoint ancestors_and_self (p : path) : list path :=
  match p with
  | [] => []
  | c :: rest => [c] :: (cons c <$> ancestors_and_self rest)
  end.

Fixpoint mkdir_each (todo : list path) : Eff Fs unit :=
  match todo with
  | [] => mret tt
  | q :: rest => λ fs,
      if bool_decide (q ∈ entries fs) then mkdir_each rest fs
      else if bool_decide (q ∈ denied fs) then (inl EACCES, fs)
      else mkdir_each rest {| entries := {[q]} ∪ entries fs;
                              denied := denied fs |}
  end.

(** [fs.mkdirSync(p, { recursive: true })] *)
Definition mkdirSync (p : path) : Eff Fs unit :=
  mkdir_each (ancestors_and_self p).

(** <<
    function ensureDir(p) {
      try { fs.mkdirSync(p, { recursive: true }); } catch {}
    }
    >> *)
Definition ensureDir (p : path) : Eff Fs unit :=
  try_catch (mkdirSync p) (λ _, mret tt).

(** <<
    function hasSingletonLocks(dir) {
      try {
        return (
          fs.existsSync(path.join(dir, "SingletonLock")) ||
          fs.existsSync(path.join(dir, "SingletonCookie"))
        );
      } catch { return false; }
    }
    >> *)
Definition hasSingletonLocks (dir : path) : Eff Fs bool :=
  try_catch
    (a ← existsSync (path_join dir "SingletonLock");
     if a : bool then mret true
     else existsSync (path_join dir "SingletonCookie"))
    (λ _, mret false).

(** <<
    function removeSingletonLocks(dir) {
      try {
        for (const f of ["SingletonLock", "SingletonCookie"]) {
          const p = path.join(dir, f);
          if (fs.existsSync(p)) fs.rmSync(p, { force: true });
        }
      } catch {}
    }
    >> *)
Fixpoint remove_each (dir : path) (names : list string) : Eff Fs unit :=
  match names with
  | [] => mret tt
  | f :: rest =>
      let p := path_join dir f in
      b ← existsSync p;
      (if b : bool then rmSync p else mret tt);;
      remove_each dir rest
  end.

Definition removeSingletonLocks (dir : path) : Eff Fs unit :=
  try_catch (remove_each dir ["SingletonLock"; "SingletonCookie"])
            (λ _, mret tt).

(** ** The clock *)

(** What [new Date()] holds, as its UTC fields. *)
Record Date := {
  year : N; month : N; day : N;
  hours : N; minutes : N; seconds : N; millis : N
}.

Definition digit_char (n : N) : ascii := ascii_of_N (48 + n mod 10).

Definition pad2 (n : N) : string :=
  String (digit_char (n / 10)) (String (digit_char n) "").
Definition pad3 (n : N) : string := String (digit_char (n / 100)) (pad2 n).
Definition pad4 (n : N) : string := String (digit_char (n / 1000)) (pad3 n).
Definition pad6 (n : N) : string :=
  String (digit_char (n / 100000)) (String (digit_char (n / 10000)) (pad4 n)).

(** The date part of [toISOString]: four digits up to the year 9999, the
    expanded form with a sign and six digits after it. *)
Definition iso_date (d : Date) : string :=
  (if (year d <=? 9999)%N then pad4 (year d) else "+" +:+ pad6 (year d))
  +:+ "-" +:+ pad2 (month d) +:+ "-" +:+ pad2 (day d).

(** [d.toISOString()], e.g. [2024-05-06T07:08:09.123Z]. *)
Definition toISOString (d : Date) : string :=
  iso_date d +:+ "T" +:+ pad2 (hours d) +:+ ":" +:+ pad2 (minutes d)
  +:+ ":" +:+ pad2 (seconds d) +:+ "." +:+ pad3 (millis d) +:+ "Z".

(** [s.replace(/[:]/g, "-")] *)
Fixpoint replace_colons (s : string) : string :=
  match s with
  | EmptyString => EmptyString
  | String c rest =>
      String (if Ascii.eqb c ":" then "-"%char else c) (replace_colons rest)
  end.

(** [s.split(".")[0]]: what stands before the first dot. *)
Fixpoint before_first_dot (s : string) : string :=
  match s with
  | EmptyString => EmptyString
  | String c rest =>
      if Ascii.eqb c "." then EmptyString else String c (before_first_dot rest)
  end.

(** [new Date().toISOString().replace(/[:]/g, "-").split(".")[0]] *)
Definition stamp (now : Date) : string :=
  before_first_dot (replace_colons (toISOString now)).

(** The timestamp in the specification's words: date and time down to the
    second, [YYYY-MM-DDTHH-MM-SS]. *)
Definition second_stamp (d : Date) : string :=
  iso_date d +:+ "T" +:+ pad2 (hours d) +:+ "-" +:+ pad2 (minutes d)
  +:+ "-" +:+ pad2 (seconds d).

(** <<
    function pickProfileDir() {
      ensureDir(PROFILES_ROOT);
      const base = path.join(PROFILES_ROOT, DEFAULT_PROFILE_NAME);
      if (!hasSingletonLocks(base)) return base;
      removeSingletonLocks(base);
      if (!hasSingletonLocks(base)) return base;
      const stamp = new Date().toISOString().replace(/[:]/g, "-").split(".")[0];
      const alt = path.join(PROFILES_ROOT, `${DEFAULT_PROFILE_NAME}_${stamp}`);
      ensureDir(alt);
      return alt;
    }
    >>
    [now] is the value the clock gives when it is read. *)
Definition pickProfileDir (cfg : Config) (now : Date) : Eff Fs path :=
  ensureDir (PROFILES_ROOT cfg);;
  let base := path_join (PROFILES_ROOT cfg) (DEFAULT_PROFILE_NAME cfg) in
  locked ← hasSingletonLocks base;
  if negb locked then mret base
  else
    removeSingletonLocks base;;
    locked ← hasSingletonLocks base;
    if negb locked then mret base
    else
      let alt :=
        path_join (PROFILES_ROOT cfg)
                  (DEFAULT_PROFILE_NAME cfg +:+ "_" +:+ stamp now) in
      ensureDir alt;;
      mret alt.

(** Successive calls of the resolver, one clock reading for each. *)
Fixpoint pick_repeatedly (cfg : Config) (clock : list Date) (fs : Fs)
  : list (Thrown + path) * Fs :=
  match clock with
  | [] => ([], fs)
  | now :: later =>
      let '(r, fs') := pickProfileDir cfg now fs in
      let '(rs, fs'') := pick_repeatedly cfg later fs' in
      (r :: rs, fs'')
  end.

(* ===================================================================== *)
(** * Session state and lifecycle events                                  *)
(* ===================================================================== *)

(** [let lastQRData = null;] — [None] is [null]. *)
Record Session := { lastQRData : option string }.

Definition initial_session : Session := {| lastQRData := None |}.

(** The events of the whatsapp-web.js client the process listens to. *)
Inductive Event :=
  | EvQr (qr : string)
  | EvReady
  | EvAuthFailure (m : string)
  | EvDisconnected (r : string).

(** The four [client.on(...)] listeners; what they write to the console
    is left out. *)
Definition on_event (s : Session) (ev : Event) : Session :=
  match ev with
  | EvQr qr => {| lastQRData := Some qr |}
  | EvReady => {| lastQRData := None |}
  | EvAuthFailure _ => s
  | EvDisconnected _ => s
  end.

Definition run_events (evs : list Event) (s : Session) : Session :=
  fold_left on_event evs s.

(** [lastQRData] as a JavaScript value. *)
Definition lastQRData_value (s : Session) : JsVal :=
  match lastQRData s with
  | None => JNull
  | Some qr => JStr qr
  end.

(** What a handler passes to [res.status(...).json(...)]; 200 unless a
    status is set. *)
Record Response := { status : Z; json : JsVal }.

(** <<
    app.get("/status", (_req, res) => {
      res.json({ ok: true, needQr: !!lastQRData, ready: !lastQRData });
    });
    >> *)
Definition get_status (s : Session) : Response :=
  {| status := 200;
     json := JObj [("ok", JBool true);
                   ("needQr", JBool (negb (negb (truthy (lastQRData_value s)))));
                   ("ready", JBool (negb (truthy (lastQRData_value s))))] |}.

(** A field of a response body. *)
Definition field (key : string) (r : Response) : option JsVal :=
  match json r with
  | JObj props => own_prop key props
  | _ => None
  end.

Definition is_ready (ev : Event) : bool :=
  match ev with EvReady => true | _ => false end.

(** A qr event has occurred and no ready event has occurred after it. *)
Definition qr_pending (evs : list Event) : Prop :=
  ∃ before qr after,
    evs = before ++ EvQr qr :: after ∧ forallb (λ ev, negb (is_ready ev)) after = true.

(** The payloads of the qr events are QR codes, never the empty string. *)
Definition qr_nonempty (ev : Event) : Prop :=
  match ev with
  | EvQr qr => qr ≠ ""
  | _ => True
  end.

(* ===================================================================== *)
(** * The gateway: [POST /send] and [POST /bulk]                          *)
(* ===================================================================== *)

(** What a handler does to the outside: a call of [client.sendMessage]
    (with how it ended) and a timer wait. *)
Inductive Effect :=
  | ESend (chatId message : string) (delivered : bool)
  | EDelay (ms : Z).

(** The state a handler runs in: the session object behind [client], and
    the effects so far, oldest first. *)
Record Gw (World : Type) := { world : World; trace : list Effect }.
Arguments world {World} _.
Arguments trace {World} _.

Definition bad_request : Response :=
  {| status := 400;
     json := JObj [("ok", JBool false);
                   ("error", JStr "phone and message required")] |}.

Definition sent_ok : Response :=
  {| status := 200; json := JObj [("ok", JBool true)] |}.

Definition server_error (e : Thrown) : Response :=
  {| status := 500;
     json := JObj [("ok", JBool false); ("error", JStr (error_text e))] |}.

Definition bulk_ok (results : list JsVal) : Response :=
  {| status := 200;
     json := JObj [("ok", JBool true); ("results", JArr results)] |}.

(** The three shapes of a [results] entry. *)
Definition entry_bad (raw : JsVal) : JsVal :=
  JObj [("phone", raw); ("ok", JBool false); ("error", JStr "bad item")].
Definition entry_sent (phone : string) : JsVal :=
  JObj [("phone", JStr phone); ("ok", JBool true)].
Definition entry_failed (phone : string) (e : Thrown) : JsVal :=
  JObj [("phone", JStr phone); ("ok", JBool false);
        ("error", JStr (error_text e))].

Section Gateway.
Context {World : Type}.

(** [client.sendMessage(chatId, message)], awaited: it changes the
    session and either resolves ([None]) or rejects with an error.  A call
    that never settles, which would hang the request, is left out. *)
Variable sendMessage : string → string → World → option Thrown * World.

Variable cfg : Config.

Definition client_sendMessage (chatId message : string)
  : Eff (Gw World) unit := λ st,
  let '(r, w) := sendMessage chatId message (world st) in
  match r with
  | None =>
      (inr tt, {| world := w;
                  trace := trace st ++ [ESend chatId message true] |})
  | Some e =>
      (inl e, {| world := w;
                 trace := trace st ++ [ESend chatId message false] |})
  end.

(** [await new Promise((r) => setTimeout(r, ms))] *)
Definition sleep (ms : Z) : Eff (Gw World) unit := λ st,
  (inr tt, {| world := world st; trace := trace st ++ [EDelay ms] |}).

(** <<
    app.post("/send", async (req, res) => {
      try {
        const phone = normPhone(req.body.phone);
        const message = (req.body.message || "").toString();
        if (!phone || !message) {
          return res.status(400).json({ ok: false, error: "phone and message required" });
        }
        await client.sendMessage(`${phone}@c.us`, message);
        res.json({ ok: true });
      } catch (e) {
        res.status(500).json({ ok: false, error: e?.message || String(e) });
      }
    });
    >> *)
Definition post_send (body : JsVal) : Eff (Gw World) Response :=
  try_catch
    (raw ← lift (get_prop body "phone");
     phone ← lift (normPhone raw);
     m ← lift (get_prop body "message");
     message ← lift (toString_method (js_or m (JStr "")));
     if str_empty phone || str_empty message then mret bad_request
     else
       client_sendMessage (phone +:+ "@c.us") message;;
       mret sent_ok)
    (λ e, mret (server_error e)).

(** The body of the [for (const it of items)] loop of [/bulk], with
    [results] as the array built so far.  <<
      const phone = normPhone(it.phone);
      const message = (it.message || "").toString();
      if (!phone || !message) {
        results.push({ phone: it.phone, ok: false, error: "bad item" });
        continue;
      }
      try {
        await client.sendMessage(`${phone}@c.us`, message);
        results.push({ phone, ok: true });
        if (RATE_DELAY_MS > 0) await new Promise((r) => setTimeout(r, RATE_DELAY_MS));
      } catch (e) {
        results.push({ phone, ok: false, error: e?.message || String(e) });
      }
    >>
    [it.phone] is read a second time for the entry of a bad item; the
    read has no effect and gives the value of the first read.  Only the
    send can throw inside the inner [try], so the handler appends to the
    array as it was before the [try]. *)
Fixpoint bulk_loop (items : list JsVal) (results : list JsVal)
  : Eff (Gw World) (list JsVal) :=
  match items with
  | [] => mret results
  | it :: rest =>
      raw ← lift (get_prop it "phone");
      phone ← lift (normPhone raw);
      m ← lift (get_prop it "message");
      message ← lift (toString_method (js_or m (JStr "")));
      if str_empty phone || str_empty message then
        bulk_loop rest (results ++ [entry_bad raw])
      else
        results' ←
          try_catch
            (client_sendMessage (phone +:+ "@c.us") message;;
             (if 0 <? RATE_DELAY_MS cfg then sleep (RATE_DELAY_MS cfg)
              else mret tt);;
             mret (results ++ [entry_sent phone]))
            (λ e, mret (results ++ [entry_failed phone e]));
        bulk_loop rest results'
  end.

(** <<
    app.post("/bulk", async (req, res) => {
      try {
        const items = Array.isArray(req.body.items) ? req.body.items : [];
        const results = [];
        for (const it of items) { ... }
        res.json({ ok: true, results });
      } catch (e) {
        res.status(500).json({ ok: false, error: e?.message || String(e) });
      }
    });
    >> *)
Definition post_bulk (body : JsVal) : Eff (Gw World) Response :=
  try_catch
    (v ← lift (get_prop body "items");
     let items := match v with JArr elems => elems | _ => [] end in
     results ← bulk_loop items [];
     mret (bulk_ok results))
    (λ e, mret (server_error e)).

End Gateway.

(* ===================================================================== *)
(** * Vocabulary of the properties                                        *)
(* ===================================================================== *)

(** ** Profile directories *)

Definition default_path (cfg : Config) : path :=
  path_join (PROFILES_ROOT cfg) (DEFAULT_PROFILE_NAME cfg).

(** The default profile name suffixed with the timestamp to the second. *)
Definition rotated_path (cfg : Config) (now : Date) : path :=
  path_join (PROFILES_ROOT cfg)
            (DEFAULT_PROFILE_NAME cfg +:+ "_" +:+ second_stamp now).

Definition lock_markers (dir : path) : list path :=
  [path_join dir "SingletonLock"; path_join dir "SingletonCookie"].

(** Either lock marker exists in [dir]. *)
Definition locked (fs : Fs) (dir : path) : Prop :=
  ∃ p, p ∈ lock_markers dir ∧ p ∈ entries fs.

(** A marker exists and its removal is refused. *)
Definition stuck (fs : Fs) (dir : path) : Prop :=
  ∃ p, p ∈ lock_markers dir ∧ p ∈ entries fs ∧ p ∈ denied fs.

(** Nothing stands in the way of [mkdir -p p]: no directory that is
    missing on the way is one whose creation is refused. *)
Definition creatable (fs : Fs) (p : path) : Prop :=
  ∀ q, q ∈ ancestors_and_self p → q ∉ entries fs → q ∉ denied fs.

(** The string holds neither a colon nor a dot. *)
Fixpoint no_separator (s : string) : bool :=
  match s with
  | EmptyString => true
  | String c rest =>
      negb (Ascii.eqb c ":") && negb (Ascii.eqb c ".") && no_separator rest
  end.

(** ** Items of a batch *)

(** The three values the handlers compute from an item (or from the body
    of [/send]): [it.phone], its normal form, and the message text.  The
    reads and conversions may throw. *)
Definition item_fields (it : JsVal) : Thrown + (JsVal * string * string) :=
  match get_prop it "phone" with
  | inl e => inl e
  | inr raw =>
      match normPhone raw with
      | inl e => inl e
      | inr phone =>
          match get_prop it "message" with
          | inl e => inl e
          | inr m =>
              match toString_method (js_or m (JStr "")) with
              | inl e => inl e
              | inr message => inr (raw, phone, message)
              end
          end
      end
  end.

(** An item that can be read: it is not [null], and neither its phone nor
    its message is (or is an array that holds) an object with a
    ["toString"] property of its own. *)
Definition readable (it : JsVal) : Prop :=
  match get_prop it "phone", get_prop it "message" with
  | inr raw, inr m => converts raw = true ∧ converts m = true
  | _, _ => False
  end.

(** The list [/bulk] iterates over:
    [Array.isArray(req.body.items) ? req.body.items : []]. *)
Definition batch_items (body : JsVal) : list JsVal :=
  match get_prop body "items" with
  | inr (JArr elems) => elems
  | _ => []
  end.

(** The body of a [/send] request lacks a message, or has an empty one. *)
Definition message_missing_or_empty (body : JsVal) : Prop :=
  get_prop body "message" = inr JUndefined ∨
  get_prop body "message" = inr (JStr "").

(** The body lacks a phone, or has one that normalizes to nothing. *)
Definition phone_missing_or_blank (body : JsVal) : Prop :=
  get_prop body "phone" = inr JUndefined ∨
  ∃ raw, get_prop body "phone" = inr raw ∧ normPhone raw = inr "".

(** The phone, and the message, can be converted to a string. *)
Definition phone_converts (body : JsVal) : Prop :=
  ∃ raw, get_prop body "phone" = inr raw ∧ converts raw = true.

Definition message_converts (body : JsVal) : Prop :=
  ∃ m, get_prop body "message" = inr m ∧ converts m = true.

(** [!phone || !message] *)
Definition rejected (phone message : string) : bool :=
  str_empty phone || str_empty message.

(** The wait that follows a delivered message. *)
Definition pacing (cfg : Config) : list Effect :=
  if 0 <? RATE_DELAY_MS cfg then [EDelay (RATE_DELAY_MS cfg)] else [].

(** The entry an item gets in [results], and the effects of processing
    it. *)
Inductive item_outcome (cfg : Config) : JsVal → JsVal → list Effect → Prop :=
  | item_rejected it raw phone message :
      item_fields it = inr (raw, phone, message) →
      rejected phone message = true →
      item_outcome cfg it (entry_bad raw) []
  | item_sent it raw phone message :
      item_fields it = inr (raw, phone, message) →
      rejected phone message = false →
      item_outcome cfg it (entry_sent phone)
                   (ESend (phone +:+ "@c.us") message true :: pacing cfg)
  | item_failed it raw phone message e :
      item_fields it = inr (raw, phone, message) →
      rejected phone message = false →
      item_outcome cfg it (entry_failed phone e)
                   [ESend (phone +:+ "@c.us") message false].

(** A field of a [results] entry. *)
Definition entry_field (key : string) (entry : JsVal) : option JsVal :=
  match entry with
  | JObj props => own_prop key props
  | _ => None
  end.

(** The entry [r] is the one of item [it], as far as the phone goes: the
    value the caller gave for a rejected item, the normalized digits for
    an item that reached the send. *)
Definition phone_reported (it r : JsVal) : Prop :=
  ∃ raw phone message,
    item_fields it = inr (raw, phone, message) ∧
    if rejected phone message
    then entry_field "phone" r = Some raw ∧
         entry_field "ok" r = Some (JBool false) ∧
         entry_field "error" r = Some (JStr "bad item")
    else entry_field "phone" r = Some (JStr phone) ∧
         all_digits phone = true ∧
         ∃ delivered, entry_field "ok" r = Some (JBool delivered).

(** The calls of [client.sendMessage] in a trace, in order. *)
Definition sends_of (tr : list Effect) : list (string * string) :=
  omap (λ ef, match ef with
              | ESend chatId message _ => Some (chatId, message)
              | EDelay _ => None
              end) tr.

(** The sends a list of items asks for, in the order of the items. *)
Definition expected_sends (items : list JsVal) : list (string * string) :=
  omap (λ it, match item_fields it with
              | inr (_, phone, message) =>
                  if rejected phone message then None
                  else Some (phone +:+ "@c.us", message)
              | inl _ => None
              end) items.

Definition starts_with_delay (tr : list Effect) : bool :=
  match tr with EDelay _ :: _ => true | _ => false end.

(** The pacing of the code: a delivered message is followed at once by
    one wait of [ms] when [ms] is positive, and by none otherwise; a
    failed send is followed by no wait; there is no other wait. *)
Fixpoint paced_after_delivery (ms : Z) (tr : list Effect) : bool :=
  match tr with
  | [] => true
  | EDelay _ :: _ => false
  | ESend _ _ false :: rest =>
      negb (starts_with_delay rest) && paced_after_delivery ms rest
  | ESend _ _ true :: rest =>
      if 0 <? ms then
        match rest with
        | EDelay d :: rest' => (d =? ms) && paced_after_delivery ms rest'
        | _ => false
        end
      else negb (starts_with_delay rest) && paced_after_delivery ms rest
  end.

Definition is_send (ef : Effect) : bool :=
  match ef with ESend _ _ _ => true | EDelay _ => false end.

(** The pacing as the specification words it: after every send attempt,
    delivered or not, a wait of [ms] comes before the next send. *)
Fixpoint waits_before_next_send (ms : Z) (tr : list Effect) : bool :=
  match tr with
  | [] => true
  | EDelay _ :: rest => waits_before_next_send ms rest
  | ESend _ _ _ :: rest =>
      (negb (existsb is_send rest)
       || match rest with EDelay d :: _ => d =? ms | _ => false end)
      && waits_before_next_send ms rest
  end.

(* ===================================================================== *)
(** * Concrete environments                                               *)
(* ===================================================================== *)

(** A session that answers the successive sends by a script, and delivers
    once the script is used up. *)
Definition Script := list (option Thrown).

Definition scripted (chatId message : string) (w : Script)
  : option Thrown * Script :=
  match w with
  | [] => (None, [])
  | r :: rest => (r, rest)
  end.

Definition fresh (w : Script) : Gw Script := {| world := w; trace := [] |}.

Definition not_ready : Thrown := Throw "Error" "Evaluation failed: not ready".

Definition sample_cfg : Config :=
  {| dirname := ["app"]; CLIENT_ID := "nour"; RATE_DELAY_MS := 120 |}.

Definition item (phone message : string) : JsVal :=
  JObj [("phone", JStr phone); ("message", JStr message)].

Definition bulk_body (items : list JsVal) : JsVal :=
  JObj [("items", JArr items)].

Definition sample_date : Date :=
  {| year := 2024; month := 5; day := 6;
     hours := 7; minutes := 8; seconds := 9; millis := 123 |}%N.

Definition sample_lock : path :=
  path_join (default_path sample_cfg) "SingletonLock".

(** A marker held by a running browser, in a tree that is writable. *)
Definition fs_held : Fs :=
  {| entries := {[ ["app"]; PROFILES_ROOT sample_cfg;
                   default_path sample_cfg; sample_lock ]};
     denied := {[ sample_lock ]} |}.

(** The same marker in a profiles tree that is read-only: the marker
    cannot be removed and no sibling directory can be created. *)
Definition fs_read_only : Fs :=
  {| entries := {[ ["app"]; PROFILES_ROOT sample_cfg;
                   default_path sample_cfg; sample_lock ]};
     denied := {[ sample_lock; rotated_path sample_cfg sample_date ]} |}.

(** A first run: nothing but the application directory. *)
Definition fs_first_run : Fs := {| entries := {[ ["app"] ]}; denied := ∅ |}.

(* ===================================================================== *)
(** * The rest of the program                                             *)
(* ===================================================================== *)

(** ** [GET /qr] *)

(** <<
    app.get("/qr", (_req, res) => {
      if (!lastQRData) return res.status(404).json({ ok: false, error: "no-qr" });
      res.json({ ok: true, qr: lastQRData });
    });
    >> *)
Definition get_qr (s : Session) : Response :=
  if negb (truthy (lastQRData_value s)) then
    {| status := 404;
       json := JObj [("ok", JBool false); ("error", JStr "no-qr")] |}
  else
    {| status := 200;
       json := JObj [("ok", JBool true); ("qr", lastQRData_value s)] |}.

Definition is_qr (ev : Event) : bool :=
  match ev with EvQr _ => true | _ => false end.

(** ** The browser binary resolver *)

(** [os.platform()]: ["darwin"], ["win32"], or anything else. *)
Inductive Platform := Darwin | Win32 | OtherPlatform.

(** [process.env]: a variable is unset or holds a string. *)
Definition Env := string → option string.

(** [process.env[name]] as a value. *)
Definition env_value (env : Env) (name : string) : JsVal :=
  match env name with
  | Some v => JStr v
  | None => JUndefined
  end.

(** [process.env[name] || fallback] *)
Definition env_or (env : Env) (name fallback : string) : string :=
  match env name with
  | Some v => if str_empty v then fallback else v
  | None => fallback
  end.

(** The well-known install locations, in the order the source pushes
    them.  [win_join] is [path.join] of the Windows flavour of [path],
    which the source applies to the program-files directory and a
    relative location. *)
Definition candidates (win_join : string → string → string) (env : Env)
    (platform : Platform) : list string :=
  match platform with
  | Darwin =>
      ["/Applications/Google Chrome.app/Contents/MacOS/Google Chrome";
       "/Applications/Chromium.app/Contents/MacOS/Chromium";
       "/Applications/Brave Browser.app/Contents/MacOS/Brave Browser";
       "/Applications/Microsoft Edge.app/Contents/MacOS/Microsoft Edge"]
  | Win32 =>
      let pf := env_or env "PROGRAMFILES" "C:\\Program Files" in
      let pf86 := env_or env "PROGRAMFILES(X86)" "C:\\Program Files (x86)" in
      [win_join pf "Google/Chrome/Application/chrome.exe";
       win_join pf86 "Google/Chrome/Application/chrome.exe";
       win_join pf "Microsoft/Edge/Application/msedge.exe";
       win_join pf86 "Microsoft/Edge/Application/msedge.exe";
       win_join pf "BraveSoftware/Brave-Browser/Application/brave.exe"]
  | OtherPlatform =>
      ["/usr/bin/google-chrome";
       "/usr/bin/chromium-browser";
       "/usr/bin/chromium";
       "/snap/bin/chromium";
       "/usr/bin/brave-browser";
       "/usr/bin/microsoft-edge"]
  end.

(** [for (const p of candidates) { try { if (fs.existsSync(p)) return p; }
    catch {} } return null;] with [present] for [fs.existsSync] on these
    paths, which the source keeps as strings. *)
Fixpoint first_existing (present : string → bool) (cands : list string)
  : option string :=
  match cands with
  | [] => None
  | p :: rest => if present p then Some p else first_existing present rest
  end.

(** <<
    function resolveChromePath() {
      if (process.env.PUPPETEER_EXECUTABLE_PATH) return process.env.PUPPETEER_EXECUTABLE_PATH;
      if (process.env.CHROME_PATH) return process.env.CHROME_PATH;
      const candidates = [];
      ...
      for (const p of candidates) { try { if (fs.existsSync(p)) return p; } catch {} }
      return null;
    }
    >>
    [None] is [null]. *)
Definition resolveChromePath (win_join : string → string → string)
    (present : string → bool) (env : Env) (platform : Platform)
  : option string :=
  if truthy (env_value env "PUPPETEER_EXECUTABLE_PATH")
  then env "PUPPETEER_EXECUTABLE_PATH"
  else if truthy (env_value env "CHROME_PATH")
  then env "CHROME_PATH"
  else first_existing present (candidates win_join env platform).

(** ** Start-up: the files touched before the client is initialized *)

(** [path.join(__dirname, ".wwebjs_auth", "session-" + CLIENT_ID)] *)
Definition auth_session_dir (cfg : Config) : path :=
  path_join (path_join (dirname cfg) ".wwebjs_auth")
            ("session-" +:+ CLIENT_ID cfg).

(** <<
    function cleanAuthSingletons() {
      try {
        const sessDir = path.join(__dirname, ".wwebjs_auth", "session-" + CLIENT_ID);
        removeSingletonLocks(sessDir);
      } catch {}
    }
    >> *)
Definition cleanAuthSingletons (cfg : Config) : Eff Fs unit :=
  try_catch (removeSingletonLocks (auth_session_dir cfg)) (λ _, mret tt).

(** What the module does to the filesystem at start-up, in order:
    [const USER_DATA_DIR = pickProfileDir();] and then, at the head of the
    initializing function, before [client.initialize()] is awaited,
    [cleanAuthSingletons(); removeSingletonLocks(USER_DATA_DIR);].  The
    result is [USER_DATA_DIR]. *)
Definition startup_files (cfg : Config) (now : Date) : Eff Fs path :=
  USER_DATA_DIR ← pickProfileDir cfg now;
  cleanAuthSingletons cfg;;
  removeSingletonLocks USER_DATA_DIR;;
  mret USER_DATA_DIR.

(** ** More vocabulary *)






(** A send the gateway may make: to the chat of a phone that is not empty
    and holds digits only, with a message that is not empty. *)
Definition proper_send (ef : Effect) : Prop :=
  match ef with
  | ESend chatId message _ =>
      ∃ phone, chatId = phone +:+ "@c.us" ∧ phone ≠ "" ∧
               all_digits phone = true ∧ message ≠ ""
  | EDelay _ => True
  end.

(** A name that [path.join] appends as it stands, as one more component
    of the path: it is not empty, it is neither [.] nor [..], and it holds
    no separator ([/], and the backslash of Windows, character 92). *)
Fixpoint separator_free (s : string) : bool :=
  match s with
  | EmptyString => true
  | String c rest =>
      negb (Ascii.eqb c "/") && negb (Ascii.eqb c (ascii_of_N 92)) &&
      separator_free rest
  end.

Definition plain_component (name : string) : Prop :=
  name ≠ "" ∧ name ≠ "." ∧ name ≠ ".." ∧ separator_free name = true.

(** Two clock readings in the same second. *)
Definition same_second (d1 d2 : Date) : Prop :=
  year d1 = year d2 ∧ month d1 = month d2 ∧ day d1 = day d2 ∧
  hours d1 = hours d2 ∧ minutes d1 = minutes d2 ∧ seconds d1 = seconds d2.

(** A calendar reading of the clock: the fields in their ranges, the year
    with four digits. *)
Definition calendar (d : Date) : Prop :=
  (year d <= 9999 ∧ month d < 100 ∧ day d < 100 ∧
   hours d < 100 ∧ minutes d < 100 ∧ seconds d < 100)%N.

(** More concrete environments. *)

(** Both markers left by a browser that crashed: nothing is refused. *)
Definition fs_stale : Fs :=
  {| entries := {[ ["app"]; PROFILES_ROOT sample_cfg;
                   default_path sample_cfg; sample_lock;
                   path_join (default_path sample_cfg) "SingletonCookie" ]};
     denied := ∅ |}.

(** Both markers, the first one held. *)
Definition fs_first_held : Fs :=
  {| entries := {[ ["app"]; PROFILES_ROOT sample_cfg;
                   default_path sample_cfg; sample_lock;
                   path_join (default_path sample_cfg) "SingletonCookie" ]};
     denied := {[ sample_lock ]} |}.

Definition no_env : Env := λ _, None.

Definition only_chromium (p : string) : bool := String.eqb p "/usr/bin/chromium".

Definition plain_join (a b : string) : string := a +:+ "/" +:+ b.

(* ===================================================================== *)
(** * Properties of the phone normalizer                                  *)
(* ===================================================================== *)

(** Replacing every run of non-digits by nothing keeps exactly the
    digits, whatever the scanner's state. *)
Lemma replace_runs_keeps_digits (in_run : bool) (s : string) :
  replace_nondigit_runs "" in_run s = digits_only s.
Proof.
  revert in_run. induction s as [|c s IH]; intros in_run; simpl.
  - reflexivity.
  - destruct (is_digit c).
    + by rewrite IH.
    + destruct in_run; simpl; apply IH.
Qed.

Lemma digits_only_all_digits (s : string) : all_digits (digits_only s) = true.
Proof.
  induction s as [|c s IH]; simpl; [done|].
  destruct (is_digit c) eqn:Hc; simpl; [|done].
  by rewrite Hc.
Qed.

Lemma startsWith_00 (d : string) :
  (if startsWith "00" d then slice_from 2 d else d) = strip_trunk_prefix d.
Proof.
  destruct d as [|a [|b d]]; cbn [startsWith slice_from strip_trunk_prefix].
  - reflexivity.
  - destruct (Ascii.eqb_spec "0" a) as [<-|Ha]; [done|].
    destruct a as [[] [] [] [] [] [] [] []]; done.
  - destruct (Ascii.eqb_spec "0" a) as [<-|Ha].
    + destruct (Ascii.eqb_spec "0" b) as [<-|Hb]; [done|].
      destruct b as [[] [] [] [] [] [] [] []]; done.
    + destruct a as [[] [] [] [] [] [] [] []]; done.
Qed.

Lemma strip_trunk_prefix_digits (d : string) :
  all_digits d = true → all_digits (strip_trunk_prefix d) = true.
Proof.
  destruct d as [|a [|b rest]]; simpl; intros Hd.
  - done.
  - destruct a as [[] [] [] [] [] [] [] []]; done.
  - assert (all_digits rest = true) as Hrest.
    { apply andb_prop in Hd as [_ Hd]. by apply andb_prop in Hd as [_ Hd]. }
    destruct a as [[] [] [] [] [] [] [] []]; try done;
      destruct b as [[] [] [] [] [] [] [] []]; done.
Qed.

Lemma normPhone_str (s : string) :
  normPhone (JStr s) = inr (strip_trunk_prefix (digits_only s)).
Proof.
  unfold normPhone. destruct s as [|c s]; [reflexivity|].
  cbn [truthy str_empty negb js_String].
  by rewrite replace_runs_keeps_digits, startsWith_00.
Qed.

(** The result of the normalizer, whatever the value it is given, holds
    digits only. *)
Lemma normPhone_digits (raw : JsVal) (phone : string) :
  normPhone raw = inr phone → all_digits phone = true.
Proof.
  unfold normPhone. destruct (negb (truthy raw)).
  - by intros [= <-].
  - destruct (js_String raw) as [e|s]; [done|]. cbv zeta.
    rewrite replace_runs_keeps_digits, startsWith_00. intros [= <-].
    apply strip_trunk_prefix_digits, digits_only_all_digits.
Qed.

(** ** When the conversions throw nothing *)

(** Induction on values, through the elements of arrays. *)
Lemma JsVal_array_ind (P : JsVal → Prop) :
  P JUndefined → P JNull → (∀ b, P (JBool b)) → (∀ n, P (JNum n)) →
  (∀ s, P (JStr s)) → (∀ elems, Forall P elems → P (JArr elems)) →
  (∀ props, P (JObj props)) → ∀ v, P v.
Proof.
  intros Hu Hn Hb Hnum Hs Harr Hobj. fix IH 1.
  intros [| |b|n|s|elems|props].
  - exact Hu.
  - exact Hn.
  - apply Hb.
  - apply Hnum.
  - apply Hs.
  - apply Harr. induction elems as [|x elems IHelems]; constructor.
    + apply IH.
    + exact IHelems.
  - apply Hobj.
Qed.

Lemma join_elements_succeeds (l : list JsVal) :
  Forall (λ x, stringifiable x = true ↔ ∃ s, js_String x = inr s) l →
  forallb stringifiable l = true ↔ ∃ s, join_elements js_String l = inr s.
Proof.
  induction 1 as [|x rest Hx _ IH]; cbn [forallb join_elements].
  - split; [intros _; by eexists|done].
  - rewrite andb_true_iff, Hx, IH. clear Hx IH.
    assert (match x with
            | JUndefined | JNull => inr ""
            | _ => js_String x
            end = js_String x ∨
            (∃ s, js_String x = inr s) ∧
            match x with
            | JUndefined | JNull => inr ""
            | _ => js_String x
            end = @inr Thrown string "") as [->|[Hx ->]].
    { destruct x; try (by left); right; (split; [by eexists|done]). }
    + destruct (js_String x) as [e|s].
      * split; [by intros [[? [=]] _]|by intros [? [=]]].
      * destruct rest as [|y rest].
        -- split; [intros _; by eexists|intros _; split; by eexists].
        -- destruct (join_elements js_String (y :: rest)) as [e|t].
           ++ split; [by intros [_ [? [=]]]|by intros [? [=]]].
           ++ split; [intros _; by eexists|intros _; split; by eexists].
    + destruct rest as [|y rest].
      * split; [intros _; by eexists|intros _; split; [done|by eexists]].
      * destruct (join_elements js_String (y :: rest)) as [e|t].
        -- split; [by intros [_ [? [=]]]|by intros [? [=]]].
        -- split; [intros _; by eexists|intros _; split; [done|by eexists]].
Qed.

Lemma js_String_succeeds (v : JsVal) :
  stringifiable v = true ↔ ∃ s, js_String v = inr s.
Proof.
  induction v as [| |b|n|s|elems IH|props] using JsVal_array_ind;
    cbn [stringifiable js_String];
    try (split; [intros _; by eexists|done]).
  - destruct b; (split; [intros _; by eexists|done]).
  - by apply join_elements_succeeds.
  - destruct (own_prop "toString" props).
    + split; [done|by intros [? [=]]].
    + split; [intros _; by eexists|done].
Qed.

Lemma normPhone_succeeds (raw : JsVal) :
  converts raw = true ↔ ∃ phone, normPhone raw = inr phone.
Proof.
  unfold converts, normPhone. destruct (truthy raw); cbn [negb orb].
  - rewrite js_String_succeeds. destruct (js_String raw) as [e|s].
    + split; by intros [? [=]].
    + split; intros _; by eexists.
  - split; [intros _; by eexists|done].
Qed.

Lemma message_text_succeeds (m : JsVal) :
  converts m = true ↔
  ∃ message, toString_method (js_or m (JStr "")) = inr message.
Proof.
  unfold converts, js_or. destruct (truthy m) eqn:Hm; cbn [negb orb].
  - rewrite js_String_succeeds.
    destruct m as [| |b|n|s|elems|props]; try done.
    cbn [js_String toString_method].
    destruct (own_prop "toString" props).
    + split; by intros [? [=]].
    + split; intros _; by eexists.
  - split; [intros _; by eexists|done].
Qed.

Lemma readable_fields (it : JsVal) :
  readable it ↔ ∃ f, item_fields it = inr f.
Proof.
  unfold readable, item_fields.
  destruct (get_prop it "phone") as [e|raw].
  { split; [done|by intros [? [=]]]. }
  destruct (get_prop it "message") as [e|m].
  { destruct (normPhone raw); split; done || by intros [? [=]]. }
  rewrite normPhone_succeeds, message_text_succeeds.
  destruct (normPhone raw) as [e|phone].
  { split; [by intros [[? [=]] _]|by intros [? [=]]]. }
  destruct (toString_method (js_or m (JStr ""))) as [e|message].
  { split; [by intros [_ [? [=]]]|by intros [? [=]]]. }
  split; [intros _; by eexists|intros _; split; by eexists].
Qed.

(** C3.  For every input string the normalizer removes all the characters
    that are not digits, then drops a leading "00" once (the two
    characters, at most one time: what follows them is kept even when it
    starts with "00" again), and the result holds digits only.  In
    particular "0020100123456" gives "20100123456" and "+201001234567"
    gives "201001234567". *)
Theorem normPhone_on_strings (s : string) :
  normPhone (JStr s) = inr (strip_trunk_prefix (digits_only s)) ∧
  (∀ rest, digits_only s = String "0" (String "0" rest) →
           normPhone (JStr s) = inr rest) ∧
  (startsWith "00" (digits_only s) = false →
   normPhone (JStr s) = inr (digits_only s)) ∧
  all_digits (strip_trunk_prefix (digits_only s)) = true ∧
  normPhone (JStr "0020100123456") = inr "20100123456" ∧
  normPhone (JStr "+201001234567") = inr "201001234567".
Proof.
  repeat split.
  - apply normPhone_str.
  - intros rest Hd. by rewrite normPhone_str, Hd.
  - intros Hp. rewrite normPhone_str, <- startsWith_00. by rewrite Hp.
  - apply strip_trunk_prefix_digits, digits_only_all_digits.
Qed.

(* ===================================================================== *)
(** * Properties of the session state and of [GET /status]                *)
(* ===================================================================== *)

Lemma run_events_snoc (evs : list Event) (ev : Event) (s : Session) :
  run_events (evs ++ [ev]) s = on_event (run_events evs s) ev.
Proof. unfold run_events. by rewrite fold_left_app. Qed.

(** [needQr] is reported exactly when a payload that is not empty is
    held. *)
Lemma needQr_iff_held (s : Session) :
  field "needQr" (get_status s) = Some (JBool true) ↔
  ∃ qr, lastQRData s = Some qr ∧ qr ≠ "".
Proof.
  unfold field, get_status, lastQRData_value. cbn.
  destruct (lastQRData s) as [[|c qr]|]; cbn; split.
  - intros [=].
  - intros (qr & [= <-] & Hne). done.
  - intros _. eexists. split; [done|]. discriminate.
  - done.
  - intros [=].
  - intros (qr & [=] & _).
Qed.

(** Events that are not [ready] keep a held payload held (it may be
    replaced by that of a later [qr]). *)
Lemma held_without_ready (after : list Event) (s : Session) :
  is_Some (lastQRData s) →
  forallb (λ ev, negb (is_ready ev)) after = true →
  is_Some (lastQRData (run_events after s)).
Proof.
  revert s. induction after as [|ev after IH]; intros s Hs Hno; [done|].
  cbn in Hno. apply andb_prop in Hno as [Hev Hno].
  cbn. apply IH; [|done]. destruct ev; cbn in *; done.
Qed.

(** A payload is held exactly when a [qr] has occurred with no [ready]
    after it. *)
Lemma held_iff_pending (evs : list Event) :
  is_Some (lastQRData (run_events evs initial_session)) ↔ qr_pending evs.
Proof.
  induction evs as [|ev evs IH] using rev_ind.
  - split.
    + intros [qr [=]].
    + intros (before & qr & after & Heq & _). by destruct before.
  - rewrite run_events_snoc. split.
    + intros Hheld. destruct ev as [qr| |m|r]; cbn in Hheld.
      * exists evs, qr, []. done.
      * by destruct Hheld.
      * apply IH in Hheld as (before & qr & after & -> & Hno).
        exists before, qr, (after ++ [EvAuthFailure m]). split.
        { by rewrite <- app_assoc. }
        rewrite forallb_app, Hno. done.
      * apply IH in Hheld as (before & qr & after & -> & Hno).
        exists before, qr, (after ++ [EvDisconnected r]). split.
        { by rewrite <- app_assoc. }
        rewrite forallb_app, Hno. done.
    + intros (before & qr & after & Heq & Hno).
      rewrite <- run_events_snoc, Heq.
      unfold run_events. rewrite fold_left_app. cbn [fold_left].
      apply held_without_ready; [|done]. by destruct qr.
Qed.

(** Whatever is held comes from a [qr] event of the sequence. *)
Lemma held_payload_nonempty (evs : list Event) (qr : string) :
  Forall qr_nonempty evs →
  lastQRData (run_events evs initial_session) = Some qr → qr ≠ "".
Proof.
  induction evs as [|ev evs IH] using rev_ind; [done|].
  intros Hall. apply Forall_app in Hall as [Hevs Hev].
  rewrite Forall_singleton in Hev.
  rewrite run_events_snoc. destruct ev as [qr'| |m|r]; cbn in *.
  - by intros [= <-].
  - done.
  - by apply IH.
  - by apply IH.
Qed.

(** C2 (as amended).  At process start, before any lifecycle event, no QR
    payload is held, and [GET /status] answers 200 with [ok:true],
    [needQr:false] and [ready:true]: [ready] is computed as the negation
    of [needQr], not from the session's own readiness. *)
Theorem status_at_start :
  lastQRData initial_session = None ∧
  get_status initial_session =
    {| status := 200;
       json := JObj [("ok", JBool true); ("needQr", JBool false);
                     ("ready", JBool true)] |}.
Proof. split; reflexivity. Qed.

(** C2, as stated, fails: in the initial state [GET /status] does not
    report [ready:false]. *)
Lemma status_at_start_not_unready :
  ¬ (field "needQr" (get_status initial_session) = Some (JBool false) ∧
     field "ready" (get_status initial_session) = Some (JBool false)).
Proof. intros [_ H]. vm_compute in H. discriminate H. Qed.

(** C4 (as amended).  For every finite sequence of lifecycle events
    applied from the initial state in which every qr event carries a
    payload that is not the empty string, [GET /status] reports
    [needQr:true] if and only if a qr event has occurred and no ready
    event has occurred after it; an auth_failure or a disconnected event
    leaves the reported state unchanged. *)
Theorem needQr_iff_qr_pending (evs : list Event) :
  Forall qr_nonempty evs →
  (field "needQr" (get_status (run_events evs initial_session))
     = Some (JBool true) ↔ qr_pending evs) ∧
  (∀ m, get_status (run_events (evs ++ [EvAuthFailure m]) initial_session)
        = get_status (run_events evs initial_session)) ∧
  (∀ r, get_status (run_events (evs ++ [EvDisconnected r]) initial_session)
        = get_status (run_events evs initial_session)).
Proof.
  intros Hall. split; [|split].
  - rewrite needQr_iff_held, <- held_iff_pending. split.
    + intros (qr & Hqr & _). by exists qr.
    + intros [qr Hqr]. exists qr. split; [done|].
      by eapply held_payload_nonempty.
  - intros m. by rewrite run_events_snoc.
  - intros r. by rewrite run_events_snoc.
Qed.

Lemma needQr_iff_qr_pending_witness :
  Forall qr_nonempty [EvQr "2@abc"; EvDisconnected "NAVIGATION"] ∧
  qr_pending [EvQr "2@abc"; EvDisconnected "NAVIGATION"].
Proof.
  assert (Forall qr_nonempty [EvQr "2@abc"; EvDisconnected "NAVIGATION"])
    as Hall.
  { repeat constructor. discriminate. }
  split; [exact Hall|].
  apply (proj1 (needQr_iff_qr_pending _ Hall)). reflexivity.
Defined.

(** C4, as stated, fails: after a qr event whose payload is the empty
    string, with no ready event after it, [GET /status] reports
    [needQr:false], since [needQr] is [!!lastQRData]. *)
Lemma needQr_false_after_empty_qr :
  qr_pending [EvQr ""] ∧
  field "needQr" (get_status (run_events [EvQr ""] initial_session))
    = Some (JBool false) ∧
  ¬ (field "needQr" (get_status (run_events [EvQr ""] initial_session))
       = Some (JBool true) ↔ qr_pending [EvQr ""]).
Proof.
  assert (qr_pending [EvQr ""]) as Hpending by (by exists [], "", []).
  split; [done|]. split; [reflexivity|].
  intros [_ H]. specialize (H Hpending). vm_compute in H. discriminate H.
Qed.

(* ===================================================================== *)
(** * Properties of the gateway                                           *)
(* ===================================================================== *)

Lemma item_fields_inr (it raw : JsVal) (phone message : string) :
  item_fields it = inr (raw, phone, message) →
  get_prop it "phone" = inr raw ∧ normPhone raw = inr phone ∧
  ∃ m, get_prop it "message" = inr m ∧
       toString_method (js_or m (JStr "")) = inr message.
Proof.
  unfold item_fields.
  destruct (get_prop it "phone") as [?|raw']; [done|].
  destruct (normPhone raw') as [?|phone'] eqn:Hphone; [done|].
  destruct (get_prop it "message") as [?|m]; [done|].
  destruct (toString_method (js_or m (JStr ""))) as [?|message'] eqn:Hm;
    [done|].
  intros [= <- <- <-]. split; [done|]. split; [done|]. by exists m.
Qed.

Lemma pacing_no_send (cfg : Config) : sends_of (pacing cfg) = [].
Proof. unfold pacing. by destruct (0 <? RATE_DELAY_MS cfg). Qed.

Section GatewayProofs.
Context {World : Type}.
Variable sendMessage : string → string → World → option Thrown * World.
Variable cfg : Config.


(** ** One turn of the loop *)

Lemma bulk_loop_throw it rest acc st e :
  item_fields it = inl e →
  bulk_loop sendMessage cfg (it :: rest) acc st = (inl e, st).
Proof.
  unfold item_fields. cbn [bulk_loop].
  unfold mbind, Eff_bind, lift.
  destruct (get_prop it "phone") as [?|raw]; [by intros [= ->]|].
  destruct (normPhone raw) as [?|phone]; [by intros [= ->]|].
  destruct (get_prop it "message") as [?|m]; [by intros [= ->]|].
  destruct (toString_method (js_or m (JStr ""))) as [?|message];
    [by intros [= ->]|done].
Qed.

Lemma bulk_loop_rejected it rest acc st raw phone message :
  item_fields it = inr (raw, phone, message) →
  rejected phone message = true →
  bulk_loop sendMessage cfg (it :: rest) acc st =
  bulk_loop sendMessage cfg rest (acc ++ [entry_bad raw]) st.
Proof.
  intros (Hraw & Hphone & m & Hm & Hmessage)%item_fields_inr Hrej.
  cbn [bulk_loop]. unfold mbind, Eff_bind, lift.
  rewrite Hraw, Hphone, Hm, Hmessage.
  unfold rejected in Hrej. by rewrite Hrej.
Qed.

Lemma bulk_loop_sent it rest acc st raw phone message w :
  item_fields it = inr (raw, phone, message) →
  rejected phone message = false →
  sendMessage (phone +:+ "@c.us") message (world st) = (None, w) →
  bulk_loop sendMessage cfg (it :: rest) acc st =
  bulk_loop sendMessage cfg rest (acc ++ [entry_sent phone])
    {| world := w;
       trace := trace st ++
                ESend (phone +:+ "@c.us") message true :: pacing cfg |}.
Proof.
  intros (Hraw & Hphone & m & Hm & Hmessage)%item_fields_inr Hrej Hsend.
  cbn [bulk_loop].
  unfold mbind, Eff_bind, lift, try_catch, client_sendMessage, pacing.
  rewrite Hraw, Hphone, Hm, Hmessage.
  unfold rejected in Hrej. rewrite Hrej, Hsend.
  destruct (0 <? RATE_DELAY_MS cfg); cbn.
  - by rewrite <- app_assoc.
  - done.
Qed.

Lemma bulk_loop_failed it rest acc st raw phone message e w :
  item_fields it = inr (raw, phone, message) →
  rejected phone message = false →
  sendMessage (phone +:+ "@c.us") message (world st) = (Some e, w) →
  bulk_loop sendMessage cfg (it :: rest) acc st =
  bulk_loop sendMessage cfg rest (acc ++ [entry_failed phone e])
    {| world := w;
       trace := trace st ++ [ESend (phone +:+ "@c.us") message false] |}.
Proof.
  intros (Hraw & Hphone & m & Hm & Hmessage)%item_fields_inr Hrej Hsend.
  cbn [bulk_loop].
  unfold mbind, Eff_bind, lift, try_catch, client_sendMessage.
  rewrite Hraw, Hphone, Hm, Hmessage.
  unfold rejected in Hrej. by rewrite Hrej, Hsend.
Qed.

(** ** The whole loop

    The loop handles the items one after the other, from the first.  It
    stops at the first item whose reading throws, and then rethrows;
    otherwise it returns the array with one more entry per item. *)
Lemma bulk_loop_spec items : ∀ acc st res st',
  bulk_loop sendMessage cfg items acc st = (res, st') →
  ∃ n rs effs,
    Forall3 (item_outcome cfg) (take n items) rs effs ∧
    trace st' = trace st ++ concat effs ∧
    ((n = length items ∧ res = inr (acc ++ rs)) ∨
     (∃ it e, items !! n = Some it ∧ item_fields it = inl e ∧ res = inl e)).
Proof.
  induction items as [|it rest IH]; intros acc st res st' Hrun.
  - injection Hrun as <- <-. exists 0%nat, [], []. cbn.
    rewrite !app_nil_r. split; [constructor|]. split; [done|]. by left.
  - destruct (item_fields it) as [e|[[raw phone] message]] eqn:Hit.
    + rewrite (bulk_loop_throw _ _ _ _ _ Hit) in Hrun.
      injection Hrun as <- <-. exists 0%nat, [], []. cbn.
      rewrite app_nil_r. split; [constructor|]. split; [done|].
      right. by exists it, e.
    + destruct (rejected phone message) eqn:Hrej.
      * rewrite (bulk_loop_rejected _ _ _ _ _ _ _ Hit Hrej) in Hrun.
        apply IH in Hrun as (n & rs & effs & Hall & Htr & Hres).
        exists (S n), (entry_bad raw :: rs), ([] :: effs). cbn.
        split; [constructor; [by econstructor|done]|]. split; [done|].
        destruct Hres as [[-> ->]|Hthrow]; [left|by right].
        by rewrite <- app_assoc.
      * destruct (sendMessage (phone +:+ "@c.us") message (world st))
          as [[e|] w] eqn:Hsend.
        -- rewrite (bulk_loop_failed _ _ _ _ _ _ _ _ _ Hit Hrej Hsend) in Hrun.
           apply IH in Hrun as (n & rs & effs & Hall & Htr & Hres).
           exists (S n), (entry_failed phone e :: rs),
             ([ESend (phone +:+ "@c.us") message false] :: effs).
           split; [constructor; [by econstructor|done]|].
           split; [by rewrite Htr; cbn; rewrite <- app_assoc|].
           destruct Hres as [[-> ->]|Hthrow]; [left|by right].
           by rewrite <- app_assoc.
        -- rewrite (bulk_loop_sent _ _ _ _ _ _ _ _ Hit Hrej Hsend) in Hrun.
           apply IH in Hrun as (n & rs & effs & Hall & Htr & Hres).
           exists (S n), (entry_sent phone :: rs),
             ((ESend (phone +:+ "@c.us") message true :: pacing cfg)
                :: effs).
           split; [constructor; [by econstructor|done]|].
           split; [by rewrite Htr; cbn; rewrite <- app_assoc|].
           destruct Hres as [[-> ->]|Hthrow]; [left|by right].
           by rewrite <- app_assoc.
Qed.

(** ** The request as a whole *)

Lemma post_bulk_cases body st :
  (∃ e, get_prop body "items" = inl e ∧
        post_bulk sendMessage cfg body st = (inr (server_error e), st)) ∨
  (∃ v, get_prop body "items" = inr v ∧ (∀ elems, v ≠ JArr elems) ∧
        post_bulk sendMessage cfg body st = (inr (bulk_ok []), st)) ∨
  (∃ items n rs effs st',
      get_prop body "items" = inr (JArr items) ∧
      Forall3 (item_outcome cfg) (take n items) rs effs ∧
      trace st' = trace st ++ concat effs ∧
      ((n = length items ∧
        post_bulk sendMessage cfg body st = (inr (bulk_ok rs), st')) ∨
       (∃ it e, items !! n = Some it ∧ item_fields it = inl e ∧
                post_bulk sendMessage cfg body st
                = (inr (server_error e), st')))).
Proof.
  unfold post_bulk, try_catch, mbind, Eff_bind, lift.
  destruct (get_prop body "items") as [e|v] eqn:Hitems.
  - left. by exists e.
  - destruct (bulk_loop sendMessage cfg
                match v with JArr elems => elems | _ => [] end [] st)
      as [res st'] eqn:Hrun.
    destruct v as [| | | | |items|];
      try (right; left; eexists; split; [done|];
           injection Hrun as <- <-; split; [by intros|done]).
    right; right.
    apply bulk_loop_spec in Hrun as (n & rs & effs & Hall & Htr & Hres).
    exists items, n, rs, effs, st'. split; [done|]. split; [done|].
    split; [done|].
    destruct Hres as [[-> ->]|(it & e & Hit & He & ->)]; [by left|].
    right. by exists it, e.
Qed.

End GatewayProofs.

(** ** What the outcomes of the items imply *)

Lemma outcomes_paced cfg items rs effs :
  Forall3 (item_outcome cfg) items rs effs →
  paced_after_delivery (RATE_DELAY_MS cfg) (concat effs) = true ∧
  starts_with_delay (concat effs) = false.
Proof.
  induction 1 as [|it r eff items rs effs Hit _ [IHp IHs]]; [done|].
  destruct Hit; cbn [concat app].
  - done.
  - unfold pacing. cbn [paced_after_delivery starts_with_delay].
    destruct (0 <? RATE_DELAY_MS cfg); cbn.
    + by rewrite Z.eqb_refl, IHp.
    + by rewrite IHs, IHp.
  - cbn. by rewrite IHs, IHp.
Qed.

Lemma expected_sends_cons it items :
  expected_sends (it :: items) =
  match item_fields it with
  | inr (_, phone, message) =>
      if rejected phone message then [] else [(phone +:+ "@c.us", message)]
  | inl _ => []
  end ++ expected_sends items.
Proof.
  unfold expected_sends. cbn [omap list_omap].
  destruct (item_fields it) as [e|[[raw phone] message]]; [done|].
  by destruct (rejected phone message).
Qed.

Lemma sends_of_app tr1 tr2 : sends_of (tr1 ++ tr2) = sends_of tr1 ++ sends_of tr2.
Proof. apply omap_app. Qed.

Lemma outcomes_sends cfg items rs effs :
  Forall3 (item_outcome cfg) items rs effs →
  sends_of (concat effs) = expected_sends items.
Proof.
  induction 1 as [|it r eff items rs effs Hit _ IH]; [done|].
  cbn [concat]. rewrite sends_of_app, IH, expected_sends_cons.
  destruct Hit as [it raw phone message Hf Hrej|it raw phone message Hf Hrej
                  |it raw phone message e Hf Hrej]; rewrite Hf, Hrej.
  - done.
  - change (sends_of (ESend (phone +:+ "@c.us") message true :: pacing cfg))
      with ((phone +:+ "@c.us", message) :: sends_of (pacing cfg)).
    by rewrite pacing_no_send.
  - done.
Qed.

Lemma outcomes_phone cfg items rs effs :
  Forall3 (item_outcome cfg) items rs effs →
  Forall2 phone_reported items rs.
Proof.
  induction 1 as [|it r eff items rs effs Hit _ IH]; constructor; [|done].
  destruct Hit as [it raw phone message Hf Hrej|it raw phone message Hf Hrej
                  |it raw phone message e Hf Hrej];
    exists raw, phone, message; (split; [done|]); rewrite Hrej.
  - done.
  - split; [done|]. split; [|by exists true].
    apply item_fields_inr in Hf as (_ & Hphone & _).
    by eapply normPhone_digits.
  - split; [done|]. split; [|by exists false].
    apply item_fields_inr in Hf as (_ & Hphone & _).
    by eapply normPhone_digits.
Qed.

Lemma server_error_not_ok e results : server_error e ≠ bulk_ok results.
Proof. discriminate. Qed.

(** When every item is readable, the loop cannot have stopped early. *)
Lemma readable_not_thrown (items : list JsVal) n it e :
  Forall readable items → items !! n = Some it → item_fields it ≠ inl e.
Proof.
  intros Hall Hit Hthrow.
  apply (Forall_lookup_1 _ _ _ _ Hall), readable_fields in Hit as [f Hf].
  congruence.
Qed.

(** ** [POST /bulk] *)

(** C1 (as amended).  [POST /bulk] handles the items strictly one after
    the other: the sends occur in the order of the items.  A delivered
    message is followed at once by one wait of [RATE_DELAY_MS], when that
    is positive; a failed send and a rejected item are followed by no
    wait, the next item starts at once. *)
Theorem bulk_paces_after_delivery {World : Type}
    (sendMessage : string → string → World → option Thrown * World)
    (cfg : Config) (body : JsVal) (st : Gw World) :
  ∃ tr,
    trace (post_bulk sendMessage cfg body st).2 = trace st ++ tr ∧
    paced_after_delivery (RATE_DELAY_MS cfg) tr = true ∧
    (∀ results,
        (post_bulk sendMessage cfg body st).1 = inr (bulk_ok results) →
        sends_of tr = expected_sends (batch_items body)).
Proof.
  unfold batch_items.
  destruct (post_bulk_cases sendMessage cfg body st)
    as [(e & Hitems & ->)
       |[(v & Hitems & Hv & ->)
        |(items & n & rs & effs & st' & Hitems & Hall & Htr & Hres)]].
  - exists []. cbn. rewrite app_nil_r. split; [done|]. split; [done|].
    intros results [=].
  - exists []. cbn. rewrite app_nil_r. split; [done|]. split; [done|].
    intros _ _. rewrite Hitems. by destruct v; try done; destruct (Hv elems).
  - exists (concat effs).
    destruct Hres as [[-> ->]|(it & e & _ & _ & ->)]; cbn.
    + split; [done|]. split; [by eapply outcomes_paced|].
      intros _ _. rewrite Hitems. rewrite firstn_all in Hall.
      by eapply outcomes_sends.
    + split; [done|]. split; [by eapply outcomes_paced|]. intros results [=].
Qed.

(** C1, as stated, fails: the first of two sends is refused by the
    session, and the second starts with no wait in between. *)
Lemma bulk_no_wait_after_failure :
  ¬ (waits_before_next_send (RATE_DELAY_MS sample_cfg)
       (trace (post_bulk scripted sample_cfg
                 (bulk_body [item "1" "a"; item "2" "b"])
                 (fresh [Some not_ready])).2) = true).
Proof. vm_compute. discriminate. Qed.

(** C5 (as amended).  For every [items] array whose elements are readable
    (none is [null], and no phone or message is, or holds, an object with
    a ["toString"] property of its own), the response is 200 with
    [ok:true] and a [results] array of the length of [items], with one
    entry per item in the order of the input, whether the sends succeed
    or fail; an item whose phone normalizes to the empty string, or whose
    message is missing or empty, gets an entry with [ok:false], and the
    items after it are processed.  In particular the items
    [{phone:"1",message:"a"}] and [{phone:"",message:"b"}] give two
    entries, the second with [ok:false]. *)
Theorem bulk_one_entry_per_item {World : Type}
    (sendMessage : string → string → World → option Thrown * World)
    (cfg : Config) (st : Gw World) :
  (∀ body items,
      get_prop body "items" = inr (JArr items) →
      Forall readable items →
      ∃ results st',
        post_bulk sendMessage cfg body st =
          (inr {| status := 200;
                  json := JObj [("ok", JBool true);
                                ("results", JArr results)] |}, st') ∧
        length results = length items ∧
        Forall2 phone_reported items results ∧
        (∀ i it r raw phone message,
            items !! i = Some it → results !! i = Some r →
            item_fields it = inr (raw, phone, message) →
            phone = "" ∨ message = "" →
            entry_field "ok" r = Some (JBool false)) ∧
        (∃ tr, trace st' = trace st ++ tr ∧
               sends_of tr = expected_sends items)) ∧
  (∃ r1 r2 st',
      post_bulk sendMessage cfg
        (bulk_body [item "1" "a"; item "" "b"]) st =
        (inr (bulk_ok [r1; r2]), st') ∧
      entry_field "ok" r2 = Some (JBool false)).
Proof.
  assert (∀ body items,
      get_prop body "items" = inr (JArr items) →
      Forall readable items →
      ∃ results st',
        post_bulk sendMessage cfg body st = (inr (bulk_ok results), st') ∧
        length results = length items ∧
        Forall2 phone_reported items results ∧
        (∃ tr, trace st' = trace st ++ tr ∧
               sends_of tr = expected_sends items)) as Hgeneral.
  { intros body items Hitems Hread.
    destruct (post_bulk_cases sendMessage cfg body st)
      as [(e & Hthrow & _)
         |[(v & Hv & Hno & _)
          |(items' & n & rs & effs & st' & Hitems' & Hall & Htr & Hres)]].
    - congruence.
    - rewrite Hitems in Hv. injection Hv as <-. by destruct (Hno items).
    - rewrite Hitems in Hitems'. injection Hitems' as <-.
      destruct Hres as [[-> Hres]|(it & e & Hit & He & _)].
      + rewrite firstn_all in Hall. exists rs, st'. split; [done|].
        split; [symmetry; by eapply Forall3_length_lm|].
        split; [by eapply outcomes_phone|].
        exists (concat effs). split; [done|]. by eapply outcomes_sends.
      + by destruct (readable_not_thrown items n it e). }
  split.
  - intros body items Hitems Hread.
    destruct (Hgeneral body items Hitems Hread)
      as (results & st' & Hrun & Hlen & Hphones & Hsends).
    exists results, st'. split; [done|]. split; [done|]. split; [done|].
    split; [|done].
    intros i it r raw phone message Hit Hr Hf Hempty.
    destruct (Forall2_lookup_lr _ _ _ _ _ _ Hphones Hit Hr)
      as (raw' & phone' & message' & Hf' & Hrep).
    rewrite Hf in Hf'. injection Hf' as <- <- <-.
    assert (rejected phone message = true) as Hrej.
    { unfold rejected. destruct Hempty as [-> | ->]; [done|].
      apply orb_true_r. }
    rewrite Hrej in Hrep. by destruct Hrep as (_ & Hok & _).
  - destruct (Hgeneral (bulk_body [item "1" "a"; item "" "b"])
                [item "1" "a"; item "" "b"])
      as (results & st' & Hrun & Hlen & Hphones & _); [done| |].
    { by repeat constructor. }
    destruct results as [|r1 [|r2 [|r3 results]]]; try done.
    exists r1, r2, st'. split; [done|].
    apply Forall2_cons_1 in Hphones as [_ Hphones].
    apply Forall2_cons_1 in Hphones as [Hsecond _].
    destruct Hsecond as (raw & phone & message & Hf & Hrep).
    injection Hf as <- <- <-. by destruct Hrep as (_ & Hok & _).
Qed.

Lemma bulk_one_entry_per_item_witness :
  ∃ results st',
    post_bulk scripted sample_cfg
      (bulk_body [item "+20 100"  "hi"; item "n/a" "hi"; item "0044 7" "yo"])
      (fresh [Some not_ready]) =
      (inr (bulk_ok results), st') ∧
    length results = 3%nat.
Proof.
  destruct (proj1 (bulk_one_entry_per_item scripted sample_cfg
                     (fresh [Some not_ready]))
              (bulk_body [item "+20 100" "hi"; item "n/a" "hi";
                          item "0044 7" "yo"])
              [item "+20 100" "hi"; item "n/a" "hi"; item "0044 7" "yo"])
    as (results & st' & Hrun & Hlen & _).
  - reflexivity.
  - repeat constructor.
  - exists results, st'. split; [exact Hrun | exact Hlen].
Defined.

(** C5, as stated, fails: an [items] array that holds [null] gets a 500
    and no [results] at all. *)
Lemma bulk_null_item_is_500 :
  (post_bulk scripted sample_cfg (bulk_body [JNull]) (fresh [])).1
    = inr (server_error (cannot_read "null" "phone")) ∧
  ¬ ∃ results,
      (post_bulk scripted sample_cfg (bulk_body [JNull]) (fresh [])).1
      = inr (bulk_ok results).
Proof.
  split; [reflexivity|]. intros [results H]. vm_compute in H. discriminate H.
Qed.

(** C9.  A [POST /bulk] request whose body has no [items] field (the read
    gives [undefined]), or whose [items] is not an array, is not
    rejected: the response is 200 with [ok:true] and an empty [results],
    and nothing is sent. *)
Theorem bulk_without_items {World : Type}
    (sendMessage : string → string → World → option Thrown * World)
    (cfg : Config) (body v : JsVal) (st : Gw World) :
  get_prop body "items" = inr v →
  (∀ elems, v ≠ JArr elems) →
  post_bulk sendMessage cfg body st =
    (inr {| status := 200;
            json := JObj [("ok", JBool true); ("results", JArr [])] |}, st).
Proof.
  intros Hitems Hv.
  destruct (post_bulk_cases sendMessage cfg body st)
    as [(e & Hthrow & _)
       |[(v' & _ & _ & ->)|(items & n & rs & effs & st' & Hitems' & _)]].
  - congruence.
  - done.
  - rewrite Hitems in Hitems'. injection Hitems' as ->. by destruct (Hv items).
Qed.

Lemma bulk_without_items_witness :
  post_bulk scripted sample_cfg (JObj []) (fresh []) =
    (inr (bulk_ok []), fresh []) ∧
  post_bulk scripted sample_cfg (JObj [("items", JStr "x")]) (fresh []) =
    (inr (bulk_ok []), fresh []).
Proof.
  split.
  - apply (bulk_without_items scripted sample_cfg (JObj []) JUndefined).
    + reflexivity.
    + discriminate.
  - apply (bulk_without_items scripted sample_cfg
             (JObj [("items", JStr "x")]) (JStr "x")).
    + reflexivity.
    + discriminate.
Defined.

(** C10.  In the [results] array of [POST /bulk] the phone field is not
    normalized throughout: the entry of an item rejected as invalid
    (empty normalized phone or empty message) carries the value the
    caller gave, as it was, and the entry of every item that reached the
    send, delivered or not, carries the normalized phone, digits only.
    The items that reach the send are those that are not rejected, in
    order. *)
Theorem bulk_phone_field {World : Type}
    (sendMessage : string → string → World → option Thrown * World)
    (cfg : Config) (body : JsVal) (st st' : Gw World) (results : list JsVal) :
  post_bulk sendMessage cfg body st = (inr (bulk_ok results), st') →
  Forall2 phone_reported (batch_items body) results ∧
  ∃ tr, trace st' = trace st ++ tr ∧
        sends_of tr = expected_sends (batch_items body).
Proof.
  intros Hrun. unfold batch_items.
  destruct (post_bulk_cases sendMessage cfg body st)
    as [(e & _ & Hthrow)
       |[(v & Hv & Hno & Hempty)
        |(items & n & rs & effs & st1 & Hitems & Hall & Htr & Hres)]].
  - rewrite Hrun in Hthrow. by injection Hthrow.
  - rewrite Hrun in Hempty. injection Hempty as -> ->. rewrite Hv.
    assert (match v with JArr elems => elems | _ => [] end = []) as ->.
    { destruct v; try done. by destruct (Hno elems). }
    split; [constructor|]. exists []. by rewrite app_nil_r.
  - rewrite Hitems.
    destruct Hres as [[-> Hok]|(it & e & _ & _ & Hthrow)].
    + rewrite Hrun in Hok. injection Hok as -> ->.
      rewrite firstn_all in Hall. split; [by eapply outcomes_phone|].
      exists (concat effs). split; [done|]. by eapply outcomes_sends.
    + rewrite Hrun in Hthrow. by injection Hthrow.
Qed.

Lemma bulk_phone_field_witness :
  Forall2 phone_reported
    [item "+20 (100) 5" "hi"; item "n/a" "hi"]
    [entry_failed "201005" not_ready; entry_bad (JStr "n/a")].
Proof.
  apply (bulk_phone_field scripted sample_cfg
           (bulk_body [item "+20 (100) 5" "hi"; item "n/a" "hi"])
           (fresh [Some not_ready])
           {| world := [];
              trace := [ESend "201005@c.us" "hi" false] |}).
  reflexivity.
Defined.

(** ** [POST /send] *)

(** C8 (as amended).  A [POST /send] request whose body lacks a message,
    or has an empty one, gets 400 with [{ok:false, error}] and no send is
    attempted, whatever the phone, provided the conversion of the phone
    to a string throws nothing; so does a request whose phone is missing
    or normalizes to the empty string, provided the conversion of the
    message throws nothing.  When both are present and the send fails,
    the response is 500 with [{ok:false, error}] for the error of the
    send. *)
Theorem send_validation {World : Type}
    (sendMessage : string → string → World → option Thrown * World)
    (body : JsVal) (st : Gw World) :
  (message_missing_or_empty body → phone_converts body →
   post_send sendMessage body st =
     (inr {| status := 400;
             json := JObj [("ok", JBool false);
                           ("error", JStr "phone and message required")] |},
      st)) ∧
  (phone_missing_or_blank body → message_converts body →
   post_send sendMessage body st =
     (inr {| status := 400;
             json := JObj [("ok", JBool false);
                           ("error", JStr "phone and message required")] |},
      st)) ∧
  (∀ raw phone message e w,
      item_fields body = inr (raw, phone, message) →
      phone ≠ "" → message ≠ "" →
      sendMessage (phone +:+ "@c.us") message (world st) = (Some e, w) →
      post_send sendMessage body st =
        (inr {| status := 500;
                json := JObj [("ok", JBool false);
                              ("error", JStr (error_text e))] |},
         {| world := w;
            trace := trace st ++
                     [ESend (phone +:+ "@c.us") message false] |})).
Proof.
  unfold post_send, try_catch, mbind, Eff_bind, lift.
  split; [|split].
  - intros Hmsg (raw & Hraw & [phone Hphone]%normPhone_succeeds).
    rewrite Hraw, Hphone.
    destruct Hmsg as [-> | ->]; cbn; by rewrite orb_true_r.
  - intros Hphone (m & Hm & [message Hmessage]%message_text_succeeds).
    assert (∃ raw, get_prop body "phone" = inr raw ∧ normPhone raw = inr "")
      as (raw & Hraw & Hblank).
    { destruct Hphone as [Hmissing|Hblank]; [|done].
      by exists JUndefined. }
    by rewrite Hraw, Hblank, Hm, Hmessage.
  - intros raw phone message e w
      (Hraw & Hphone & m & Hm & Hmessage)%item_fields_inr Hp Hmne Hsend.
    rewrite Hraw, Hphone, Hm, Hmessage.
    destruct phone; [done|]. destruct message; [done|].
    cbn [str_empty orb]. unfold client_sendMessage. by rewrite Hsend.
Qed.

Lemma send_validation_witness :
  post_send scripted (JObj [("phone", JStr "+20 100")]) (fresh []) =
    (inr bad_request, fresh []) ∧
  post_send scripted (JObj [("phone", JStr "ext."); ("message", JStr "hi")])
    (fresh []) = (inr bad_request, fresh []) ∧
  post_send scripted (item "+20 100" "hi") (fresh [Some not_ready]) =
    (inr (server_error not_ready),
     {| world := []; trace := [ESend "20100@c.us" "hi" false] |}).
Proof.
  split; [|split].
  - apply (proj1 (send_validation scripted
                    (JObj [("phone", JStr "+20 100")]) (fresh []))).
    + left. reflexivity.
    + exists (JStr "+20 100"). split; reflexivity.
  - apply (proj1 (proj2 (send_validation scripted
                    (JObj [("phone", JStr "ext."); ("message", JStr "hi")])
                    (fresh [])))).
    + right. exists (JStr "ext."). split; reflexivity.
    + exists (JStr "hi"). split; reflexivity.
  - apply (proj2 (proj2 (send_validation scripted (item "+20 100" "hi")
                           (fresh [Some not_ready])))
             (JStr "+20 100") "20100" "hi" not_ready []).
    + reflexivity.
    + discriminate.
    + discriminate.
    + reflexivity.
Defined.

(** C8, as stated, fails: the body lacks a message, and the phone is an
    object whose conversion to a string throws; the response is 500. *)
Lemma send_unconvertible_phone_is_500 :
  message_missing_or_empty (JObj [("phone", JObj [("toString", JNull)])]) ∧
  post_send scripted (JObj [("phone", JObj [("toString", JNull)])]) (fresh [])
    = (inr (server_error cannot_convert), fresh []) ∧
  status (server_error cannot_convert) ≠ 400.
Proof. split; [by left|]. split; [reflexivity|discriminate]. Qed.

(* ===================================================================== *)
(** * Properties of the timestamp                                         *)
(* ===================================================================== *)

Lemma digit_char_cases (n : N) :
  digit_char n ∈ ["0"; "1"; "2"; "3"; "4"; "5"; "6"; "7"; "8"; "9"]%char.
Proof.
  unfold digit_char.
  pose proof (N.mod_upper_bound n 10 ltac:(done)) as Hlt.
  set (k := (n mod 10)%N) in *.
  assert (k ∈ [0; 1; 2; 3; 4; 5; 6; 7; 8; 9]%N) as Hk.
  { rewrite !elem_of_cons. lia. }
  rewrite !elem_of_cons in Hk. rewrite !elem_of_cons.
  destruct Hk as [->|[->|[->|[->|[->|[->|[->|[->|[->|[->|Hk]]]]]]]]]];
    [tauto..|by apply elem_of_nil in Hk].
Qed.

Lemma digit_char_no_separator (n : N) (rest : string) :
  no_separator (String (digit_char n) rest) = no_separator rest.
Proof.
  pose proof (digit_char_cases n) as Hc. rewrite !elem_of_cons in Hc.
  destruct Hc as [->|[->|[->|[->|[->|[->|[->|[->|[->|[->|Hc]]]]]]]]]];
    [done..|by apply elem_of_nil in Hc].
Qed.

Lemma pad2_no_separator n : no_separator (pad2 n) = true.
Proof. unfold pad2. by rewrite !digit_char_no_separator. Qed.

Lemma pad3_no_separator n : no_separator (pad3 n) = true.
Proof. unfold pad3. by rewrite digit_char_no_separator, pad2_no_separator. Qed.

Lemma pad4_no_separator n : no_separator (pad4 n) = true.
Proof. unfold pad4. by rewrite digit_char_no_separator, pad3_no_separator. Qed.

Lemma no_separator_app s t :
  no_separator (s +:+ t) = no_separator s && no_separator t.
Proof.
  induction s as [|c s IH]; [done|].
  change (String c s +:+ t) with (String c (s +:+ t)).
  cbn [no_separator]. rewrite IH. by rewrite !andb_assoc.
Qed.

Lemma iso_date_no_separator d : no_separator (iso_date d) = true.
Proof.
  unfold iso_date, pad6.
  rewrite !no_separator_app, pad2_no_separator, pad2_no_separator.
  destruct (year d <=? 9999)%N.
  - by rewrite pad4_no_separator.
  - by rewrite no_separator_app, !digit_char_no_separator,
      pad4_no_separator.
Qed.

Lemma append_assoc (s t u : string) : (s +:+ t) +:+ u = s +:+ t +:+ u.
Proof.
  induction s as [|c s IH]; [done|].
  change ((String c s +:+ t) +:+ u) with (String c ((s +:+ t) +:+ u)).
  by rewrite IH.
Qed.

Lemma replace_colons_app s t :
  replace_colons (s +:+ t) = replace_colons s +:+ replace_colons t.
Proof.
  induction s as [|c s IH]; [done|].
  change (String c s +:+ t) with (String c (s +:+ t)).
  cbn [replace_colons]. by rewrite IH.
Qed.

Lemma replace_colons_plain s : no_separator s = true → replace_colons s = s.
Proof.
  induction s as [|c s IH]; cbn [no_separator replace_colons]; [done|].
  intros [[Hc _]%andb_prop Hs]%andb_prop. rewrite (IH Hs).
  by destruct (Ascii.eqb c ":").
Qed.

Lemma before_first_dot_app s t :
  no_separator s = true → before_first_dot (s +:+ String "." t) = s.
Proof.
  induction s as [|c s IH]; [done|].
  change (String c s +:+ String "." t) with (String c (s +:+ String "." t)).
  cbn [no_separator before_first_dot].
  intros [[_ Hc]%andb_prop Hs]%andb_prop. rewrite (IH Hs).
  by destruct (Ascii.eqb c ".").
Qed.

(** The stamp the resolver computes is the date and time to the second,
    with hyphens for the colons; the milliseconds do not enter it. *)
Lemma stamp_to_the_second (now : Date) : stamp now = second_stamp now.
Proof.
  unfold stamp, second_stamp, toISOString.
  rewrite !replace_colons_app.
  rewrite !(replace_colons_plain (pad2 _)) by apply pad2_no_separator.
  rewrite (replace_colons_plain (iso_date _))
    by apply iso_date_no_separator.
  change (replace_colons "T") with "T".
  change (replace_colons ":") with "-".
  change (replace_colons ".") with ".".
  set (tail := replace_colons (pad3 (millis now)) +:+ replace_colons "Z").
  set (front := iso_date now +:+ "T" +:+ pad2 (hours now) +:+ "-"
                +:+ pad2 (minutes now) +:+ "-" +:+ pad2 (seconds now)).
  replace (iso_date now +:+ "T" +:+ pad2 (hours now) +:+ "-"
           +:+ pad2 (minutes now) +:+ "-" +:+ pad2 (seconds now)
           +:+ "." +:+ tail)
    with (front +:+ String "." tail).
  - apply before_first_dot_app. unfold front.
    rewrite !no_separator_app, iso_date_no_separator, !pad2_no_separator.
    done.
  - unfold front. by rewrite !append_assoc.
Qed.

(* ===================================================================== *)
(** * Properties of the filesystem operations                             *)
(* ===================================================================== *)

Lemma ancestors_length (p q : path) :
  q ∈ ancestors_and_self p → (length q ≤ length p)%nat.
Proof.
  revert q. induction p as [|c rest IH]; intros q; cbn.
  - by intros ?%elem_of_nil.
  - rewrite elem_of_cons, list_elem_of_fmap.
    intros [->|(q' & -> & Hq'%IH)]; cbn; lia.
Qed.

Lemma self_in_ancestors (p : path) : p ≠ [] → p ∈ ancestors_and_self p.
Proof.
  induction p as [|c rest IH]; [done|]. intros _. cbn.
  destruct rest as [|c' rest']; [by left|].
  right. apply list_elem_of_fmap_2, IH. done.
Qed.

(** [mkdir -p] removes nothing, creates directories on its way only, and
    none whose creation is refused; when nothing is refused it succeeds
    and every directory on the way exists afterwards. *)
Lemma mkdir_each_spec (todo : list path) : ∀ fs, ∃ r fs',
  mkdir_each todo fs = (r, fs') ∧
  denied fs' = denied fs ∧
  entries fs ⊆ entries fs' ∧
  (∀ q, q ∈ entries fs' → q ∈ entries fs ∨ (q ∈ todo ∧ q ∉ denied fs)) ∧
  ((∀ q, q ∈ todo → q ∉ entries fs → q ∉ denied fs) →
   r = inr tt ∧ ∀ q, q ∈ todo → q ∈ entries fs').
Proof.
  induction todo as [|q rest IH]; intros fs.
  - exists (inr tt), fs. split; [done|]. split; [done|]. split; [done|].
    split; [by left|]. intros _. split; [done|]. by intros q ?%elem_of_nil.
  - cbn [mkdir_each]. case_bool_decide as Hin.
    + destruct (IH fs) as (r & fs' & -> & Hd & Hsub & Hnew & Hok).
      exists r, fs'. split; [done|]. split; [done|]. split; [done|]. split.
      * intros p [Hp|[Hp Hden]]%Hnew; [by left|]. right.
        split; [by apply elem_of_cons; right|done].
      * intros Hcre. destruct Hok as [-> Hall].
        { intros p Hp. apply Hcre, elem_of_cons. by right. }
        split; [done|].
        intros p [->|Hp]%elem_of_cons; [by apply Hsub|by apply Hall].
    + case_bool_decide as Hden.
      * exists (inl EACCES), fs.
        split; [done|]. split; [done|]. split; [done|]. split; [by left|].
        intros Hcre. destruct (Hcre q); [by apply elem_of_cons; left|done..].
      * destruct (IH {| entries := {[q]} ∪ entries fs; denied := denied fs |})
          as (r & fs' & -> & Hd & Hsub & Hnew & Hok).
        cbn in *. exists r, fs'.
        split; [done|]. split; [done|]. split; [set_solver|]. split.
        -- intros p [Hp|[Hp Hpd]]%Hnew.
           ++ apply elem_of_union in Hp as [->%elem_of_singleton|Hp];
                [|by left].
              right. split; [by apply elem_of_cons; left|done].
           ++ right. split; [by apply elem_of_cons; right|done].
        -- intros Hcre. destruct Hok as [-> Hall].
           { intros p Hp Hnp. apply Hcre; [|set_solver].
             apply elem_of_cons. by right. }
           split; [done|].
           intros p [->|Hp]%elem_of_cons; [set_solver|by apply Hall].
Qed.

Lemma ensureDir_spec (p : path) (fs : Fs) : ∃ fs',
  ensureDir p fs = (inr tt, fs') ∧
  denied fs' = denied fs ∧
  entries fs ⊆ entries fs' ∧
  (∀ q, q ∈ entries fs' →
        q ∈ entries fs ∨ (q ∈ ancestors_and_self p ∧ q ∉ denied fs)) ∧
  (creatable fs p → p ≠ [] → p ∈ entries fs').
Proof.
  unfold ensureDir, try_catch, mkdirSync.
  destruct (mkdir_each_spec (ancestors_and_self p) fs)
    as (r & fs' & -> & Hd & Hsub & Hnew & Hok).
  exists fs'. split; [by destruct r as [e|[]]|]. repeat split; try done.
  intros Hcre Hne. destruct (Hok Hcre) as [_ Hall].
  by apply Hall, self_in_ancestors.
Qed.

Lemma lock_markers_distinct (dir : path) :
  path_join dir "SingletonLock" ≠ path_join dir "SingletonCookie".
Proof. unfold path_join. by intros [=]%app_inv_head. Qed.

Lemma hasSingletonLocks_spec (dir : path) (fs : Fs) : ∃ b,
  hasSingletonLocks dir fs = (inr b, fs) ∧ (b = true ↔ locked fs dir).
Proof.
  unfold hasSingletonLocks, try_catch, mbind, Eff_bind, existsSync, locked,
    lock_markers.
  case_bool_decide as Hlock.
  - exists true. split; [done|]. split; [|done]. intros _.
    exists (path_join dir "SingletonLock"). set_solver.
  - case_bool_decide as Hcookie.
    + exists true. split; [done|]. split; [|done]. intros _.
      exists (path_join dir "SingletonCookie"). set_solver.
    + exists false. split; [done|]. split; [done|].
      intros (p & Hp & Hin). set_solver.
Qed.

(** The removal is attempted marker by marker and stops at the first
    refusal; the directory stays locked exactly when a marker is stuck. *)
Lemma removeSingletonLocks_spec (dir : path) (fs : Fs) : ∃ fs',
  removeSingletonLocks dir fs = (inr tt, fs') ∧
  denied fs' = denied fs ∧
  entries fs' ⊆ entries fs ∧
  (∀ q, q ∈ entries fs → q ∉ lock_markers dir → q ∈ entries fs') ∧
  (locked fs' dir ↔ stuck fs dir).
Proof.
  pose proof (lock_markers_distinct dir) as Hne.
  unfold removeSingletonLocks, try_catch, remove_each, mbind, Eff_bind,
    existsSync, rmSync, locked, stuck, lock_markers. cbn.
  unfold mret, Eff_ret.
  repeat (case_bool_decide; cbn);
    (eexists; split; [reflexivity|]; cbn; split; [done|]).
  all: split; [set_solver|]. all: split; [set_solver|]. all: set_solver.
Qed.

(* ===================================================================== *)
(** * Properties of the profile-directory resolver                        *)
(* ===================================================================== *)

Lemma length_append (s t : string) :
  String.length (s +:+ t) = (String.length s + String.length t)%nat.
Proof.
  induction s as [|c s IH]; [done|].
  change (String c s +:+ t) with (String c (s +:+ t)). cbn. by rewrite IH.
Qed.

Lemma rotated_not_default (cfg : Config) (now : Date) :
  rotated_path cfg now ≠ default_path cfg.
Proof.
  unfold rotated_path, default_path, path_join.
  intros [= Heq]%app_inv_head.
  apply (f_equal String.length) in Heq. rewrite !length_append in Heq.
  change (String.length "_") with 1%nat in Heq. lia.
Qed.

(** A marker of the default profile is no directory on the way to the
    profiles root, nor to a sibling of the default profile. *)
Lemma marker_not_on_the_way (cfg : Config) (name : string) (p q : path) :
  p ∈ lock_markers (default_path cfg) →
  q = PROFILES_ROOT cfg ∨ q = path_join (PROFILES_ROOT cfg) name →
  p ∉ ancestors_and_self q.
Proof.
  intros Hp Hq Hin%ancestors_length.
  assert (length p = S (S (length (PROFILES_ROOT cfg)))) as Hlen.
  { unfold lock_markers, default_path, path_join in Hp.
    rewrite !elem_of_cons in Hp.
    destruct Hp as [->|[->|[]%elem_of_nil]]; rewrite !length_app; cbn; lia. }
  destruct Hq as [->| ->]; unfold path_join in *;
    rewrite ?length_app in Hin; cbn in Hin; lia.
Qed.

(** Creating a directory on the way to [q] changes neither whether the
    default profile is locked nor whether a marker is stuck. *)
Lemma ensureDir_keeps_locks (cfg : Config) (name : string) (q : path)
    (fs fs' : Fs) :
  q = PROFILES_ROOT cfg ∨ q = path_join (PROFILES_ROOT cfg) name →
  ensureDir q fs = (inr tt, fs') →
  (locked fs' (default_path cfg) ↔ locked fs (default_path cfg)) ∧
  (stuck fs' (default_path cfg) ↔ stuck fs (default_path cfg)).
Proof.
  intros Hq Hrun.
  destruct (ensureDir_spec q fs) as (fs1 & Hrun1 & Hd & Hsub & Hnew & _).
  rewrite Hrun in Hrun1. injection Hrun1 as <-.
  assert (∀ p, p ∈ lock_markers (default_path cfg) →
               (p ∈ entries fs' ↔ p ∈ entries fs)) as Hsame.
  { intros p Hp. split; [|by apply Hsub].
    intros [Hin|[Hin _]]%Hnew; [done|].
    by destruct (marker_not_on_the_way cfg name p q). }
  unfold locked, stuck. rewrite Hd. split; split.
  - intros (p & Hp & Hin). exists p. split; [done|]. by apply Hsame.
  - intros (p & Hp & Hin). exists p. split; [done|]. by apply Hsame.
  - intros (p & Hp & Hin & Hden). exists p. split; [done|].
    split; [by apply Hsame|done].
  - intros (p & Hp & Hin & Hden). exists p. split; [done|].
    split; [by apply Hsame|done].
Qed.

(** The three ways through the resolver. *)
Lemma pickProfileDir_unlocked (cfg : Config) (now : Date) (fs : Fs) :
  ¬ locked fs (default_path cfg) →
  ∃ fs', pickProfileDir cfg now fs = (inr (default_path cfg), fs') ∧
         ¬ locked fs' (default_path cfg).
Proof.
  intros Hfree.
  destruct (ensureDir_spec (PROFILES_ROOT cfg) fs) as (fs1 & Hrun1 & _).
  destruct (ensureDir_keeps_locks cfg "" _ fs fs1 (or_introl eq_refl) Hrun1)
    as [Hlocked _].
  destruct (hasSingletonLocks_spec (default_path cfg) fs1)
    as (b & Hrun2 & Hb).
  exists fs1. split; [|by rewrite Hlocked].
  unfold pickProfileDir, mbind, Eff_bind. rewrite Hrun1.
  fold (default_path cfg). rewrite Hrun2.
  destruct b; [|done]. destruct Hfree. apply Hlocked, Hb. done.
Qed.

Lemma pickProfileDir_stuck (cfg : Config) (now : Date) (fs : Fs) :
  stuck fs (default_path cfg) →
  ∃ fs', pickProfileDir cfg now fs = (inr (rotated_path cfg now), fs') ∧
         (creatable fs (rotated_path cfg now) →
          rotated_path cfg now ∈ entries fs').
Proof.
  intros Hstuck.
  destruct (ensureDir_spec (PROFILES_ROOT cfg) fs)
    as (fs1 & Hrun1 & Hd1 & Hsub1 & _).
  destruct (ensureDir_keeps_locks cfg "" _ fs fs1 (or_introl eq_refl) Hrun1)
    as [Hlocked1 Hstuck1].
  destruct (hasSingletonLocks_spec (default_path cfg) fs1)
    as (b1 & Hrun2 & Hb1).
  destruct (removeSingletonLocks_spec (default_path cfg) fs1)
    as (fs2 & Hrun3 & Hd2 & _ & Hkept & Hlocked2).
  destruct (hasSingletonLocks_spec (default_path cfg) fs2)
    as (b2 & Hrun4 & Hb2).
  destruct (ensureDir_spec (rotated_path cfg now) fs2)
    as (fs3 & Hrun5 & _ & _ & _ & Hcreated).
  assert (b1 = true) as ->.
  { apply Hb1, Hlocked1. destruct Hstuck as (p & Hp & Hin & _). by exists p. }
  assert (b2 = true) as ->.
  { apply Hb2, Hlocked2, Hstuck1. done. }
  exists fs3. split.
  - unfold pickProfileDir, mbind, Eff_bind. rewrite Hrun1.
    fold (default_path cfg). rewrite Hrun2. cbn [negb]. rewrite Hrun3, Hrun4.
    cbn [negb]. rewrite stamp_to_the_second.
    fold (rotated_path cfg now). by rewrite Hrun5.
  - intros Hcre. apply Hcreated.
    + intros q Hq Hmissing. rewrite Hd2, Hd1. apply Hcre; [done|].
      intros Hin. apply Hmissing, Hkept; [by apply Hsub1|].
      intros Hmarker.
      exact (marker_not_on_the_way cfg
               (DEFAULT_PROFILE_NAME cfg +:+ "_" +:+ second_stamp now)
               q (rotated_path cfg now) Hmarker (or_intror eq_refl) Hq).
    + unfold rotated_path, path_join. by intros [_ [=]]%app_eq_nil.
Qed.

Lemma pick_repeatedly_unlocked (cfg : Config) (clock : list Date) :
  ∀ fs, ¬ locked fs (default_path cfg) →
  Forall (λ r, r = inr (default_path cfg)) (pick_repeatedly cfg clock fs).1 ∧
  length (pick_repeatedly cfg clock fs).1 = length clock ∧
  ¬ locked (pick_repeatedly cfg clock fs).2 (default_path cfg).
Proof.
  induction clock as [|now later IH]; intros fs Hfree.
  - split; [constructor|done].
  - destruct (pickProfileDir_unlocked cfg now fs Hfree)
      as (fs' & Hrun & Hfree').
    destruct (IH fs' Hfree') as (Hall & Hlen & Hend).
    cbn [pick_repeatedly]. rewrite Hrun.
    destruct (pick_repeatedly cfg later fs') as [rs fs''].
    cbn in *. split; [by constructor|]. split; [by rewrite Hlen|done].
Qed.

(** C7.  When the default profile directory holds no lock marker, the
    resolver returns the default path, the profiles root joined with the
    profile name, as it is; and calls repeated while no marker is there
    all return that same path (the calls themselves bring no marker). *)
Theorem pickProfileDir_without_locks (cfg : Config) (fs : Fs) :
  ¬ locked fs (default_path cfg) →
  (∀ now,
      (pickProfileDir cfg now fs).1 =
      inr (path_join (PROFILES_ROOT cfg) (DEFAULT_PROFILE_NAME cfg))) ∧
  (∀ clock,
      Forall (λ r, r = inr (default_path cfg))
             (pick_repeatedly cfg clock fs).1 ∧
      length (pick_repeatedly cfg clock fs).1 = length clock).
Proof.
  intros Hfree. split.
  - intros now.
    destruct (pickProfileDir_unlocked cfg now fs Hfree) as (fs' & -> & _).
    done.
  - intros clock.
    destruct (pick_repeatedly_unlocked cfg clock fs Hfree) as (? & ? & _).
    done.
Qed.

Lemma pickProfileDir_without_locks_witness :
  (pick_repeatedly sample_cfg [sample_date; sample_date] fs_first_run).1 =
  [inr ["app"; ".chrome_profiles"; "nour"];
   inr ["app"; ".chrome_profiles"; "nour"]].
Proof.
  assert (¬ locked fs_first_run (default_path sample_cfg)) as Hfree.
  { intros (p & Hp & Hin). unfold fs_first_run in Hin. cbn in Hin.
    apply elem_of_singleton in Hin as ->.
    unfold lock_markers in Hp. rewrite !elem_of_cons in Hp.
    destruct Hp as [Hp|[Hp|Hp%elem_of_nil]]; [discriminate Hp..|done]. }
  destruct (proj2 (pickProfileDir_without_locks sample_cfg fs_first_run Hfree)
              [sample_date; sample_date]) as [Hall Hlen].
  destruct (pick_repeatedly sample_cfg [sample_date; sample_date]
              fs_first_run).1 as [|r1 [|r2 [|r3 rs]]]; try discriminate Hlen.
  apply Forall_cons in Hall as [-> Hall].
  apply Forall_cons in Hall as [-> _]. reflexivity.
Defined.

(** C6 (as amended).  When lock markers exist at the default profile path
    and the attempt to remove them does not clear them, the resolver
    returns a path other than the default one, the profiles root joined
    with the default profile name suffixed with ["_"] and the timestamp
    to the second; that directory exists after the call whenever nothing
    refuses its creation (the creation is attempted once and its errors
    are swallowed). *)
Theorem pickProfileDir_rotates (cfg : Config) (now : Date) (fs : Fs) :
  locked fs (default_path cfg) →
  locked (removeSingletonLocks (default_path cfg) fs).2 (default_path cfg) →
  ∃ fs',
    pickProfileDir cfg now fs =
      (inr (path_join (PROFILES_ROOT cfg)
              (DEFAULT_PROFILE_NAME cfg +:+ "_" +:+ second_stamp now)), fs') ∧
    stamp now = second_stamp now ∧
    rotated_path cfg now ≠ default_path cfg ∧
    (creatable fs (rotated_path cfg now) →
     rotated_path cfg now ∈ entries fs').
Proof.
  intros _ Hstill.
  destruct (removeSingletonLocks_spec (default_path cfg) fs)
    as (fs2 & Hrun & _ & _ & _ & Hstuck).
  rewrite Hrun in Hstill. apply Hstuck in Hstill.
  destruct (pickProfileDir_stuck cfg now fs Hstill) as (fs' & Hpick & Hcre).
  exists fs'. split; [done|]. split; [apply stamp_to_the_second|].
  split; [apply rotated_not_default|done].
Qed.

Lemma pickProfileDir_rotates_witness :
  ∃ fs',
    pickProfileDir sample_cfg sample_date fs_held =
      (inr ["app"; ".chrome_profiles"; "nour_2024-05-06T07-08-09"], fs') ∧
    ["app"; ".chrome_profiles"; "nour_2024-05-06T07-08-09"] ∈ entries fs'.
Proof.
  assert (stuck fs_held (default_path sample_cfg)) as Hstuck.
  { exists sample_lock. split; [by left|].
    unfold fs_held. cbn [entries denied]. split; set_solver. }
  assert (locked fs_held (default_path sample_cfg)) as Hlocked.
  { destruct Hstuck as (p & Hp & Hin & _). by exists p. }
  assert (locked (removeSingletonLocks (default_path sample_cfg) fs_held).2
            (default_path sample_cfg)) as Hstill.
  { destruct (removeSingletonLocks_spec (default_path sample_cfg) fs_held)
      as (fs2 & Hrun & _ & _ & _ & Hiff).
    rewrite Hrun. by apply Hiff. }
  destruct (pickProfileDir_rotates sample_cfg sample_date fs_held
              Hlocked Hstill) as (fs' & Hpick & _ & _ & Hcre).
  exists fs'. split; [exact Hpick|]. apply Hcre.
  intros q Hq _. unfold fs_held. cbn [denied].
  intros Hin%elem_of_singleton. subst q.
  apply ancestors_length in Hq. vm_compute in Hq. lia.
Defined.

(** C6, as stated, fails: in a profiles tree that is read-only the marker
    cannot be removed, the resolver returns the rotated path, and that
    directory does not exist after the call. *)
Lemma rotation_in_read_only_tree :
  locked fs_read_only (default_path sample_cfg) ∧
  locked (removeSingletonLocks (default_path sample_cfg) fs_read_only).2
         (default_path sample_cfg) ∧
  (pickProfileDir sample_cfg sample_date fs_read_only).1
    = inr (rotated_path sample_cfg sample_date) ∧
  rotated_path sample_cfg sample_date
    ∉ entries (pickProfileDir sample_cfg sample_date fs_read_only).2.
Proof.
  assert (stuck fs_read_only (default_path sample_cfg)) as Hstuck.
  { exists sample_lock. split; [by left|].
    unfold fs_read_only. cbn [entries denied]. split; set_solver. }
  split; [|split; [|split]].
  - destruct Hstuck as (p & Hp & Hin & _). by exists p.
  - destruct (removeSingletonLocks_spec (default_path sample_cfg)
                fs_read_only) as (fs2 & Hrun & _ & _ & _ & Hiff).
    rewrite Hrun. by apply Hiff.
  - destruct (pickProfileDir_stuck sample_cfg sample_date fs_read_only
                Hstuck) as (fs' & -> & _). done.
  - assert (bool_decide
              (rotated_path sample_cfg sample_date
               ∈ entries (pickProfileDir sample_cfg sample_date
                            fs_read_only).2) = false) as Hno.
    { vm_compute. reflexivity. }
    by apply bool_decide_eq_false in Hno.
Qed.

(* ===================================================================== *)
(** * Further properties of the phone normalizer                          *)
(* ===================================================================== *)

Lemma startsWith_00_cases (d : string) :
  startsWith "00" d = true ↔ ∃ rest, d = String "0" (String "0" rest).
Proof.
  destruct d as [|a [|b rest]]; cbn [startsWith].
  - split; [done|by intros [? [=]]].
  - rewrite andb_false_r. split; [done|by intros [? [=]]].
  - rewrite andb_true_r, andb_true_iff, !Ascii.eqb_eq. split.
    + intros [<- <-]. by exists rest.
    + by intros [rest' [= -> -> _]].
Qed.

(** X1.  The normalizer throws exactly on the values that are truthy and
    cannot be converted to a string (an object with a ["toString"]
    property of its own, or an array that holds one); it returns the empty
    string for every falsy value, without converting it. *)
Theorem normPhone_throws_exactly (raw : JsVal) :
  ((∃ e, normPhone raw = inl e) ↔
   truthy raw = true ∧ stringifiable raw = false) ∧
  (truthy raw = false → normPhone raw = inr "").
Proof.
  split.
  - pose proof (normPhone_succeeds raw) as Hok. unfold converts in Hok.
    destruct (normPhone raw) as [e|phone].
    + split; [intros _|by eexists].
      destruct (truthy raw), (stringifiable raw); cbn in Hok; try done;
        by destruct (proj1 Hok eq_refl) as [? [=]].
    + split; [by intros [? [=]]|]. intros [Ht Hs]. rewrite Ht, Hs in Hok.
      discriminate (proj2 Hok (ex_intro _ phone eq_refl)).
  - unfold normPhone. by intros ->.
Qed.

(** X2.  A string is normalized to the empty phone, and so rejected by
    the handlers, exactly when it holds no digit at all or its digits are
    just "00". *)
Theorem normPhone_empty_iff (s : string) :
  normPhone (JStr s) = inr "" ↔
  digits_only s = "" ∨ digits_only s = "00".
Proof.
  rewrite normPhone_str. split.
  - intros [= Hstrip]. destruct (digits_only s) as [|a [|b rest]]; [by left|..].
    + cbn in Hstrip. destruct a as [[] [] [] [] [] [] [] []]; done.
    + right. cbn in Hstrip.
      destruct a as [[] [] [] [] [] [] [] []]; try done;
        destruct b as [[] [] [] [] [] [] [] []]; try done.
      by rewrite Hstrip.
  - by intros [-> | ->].
Qed.

(** X3.  Normalizing is not idempotent: on its own result it strips
    a further "00".  The result is left unchanged exactly when it does not
    begin with "00"; in particular a phone already in normal form (digits
    only, no leading "00") is a fixed point. *)
Theorem normPhone_again (s phone : string) :
  normPhone (JStr s) = inr phone →
  normPhone (JStr phone) = inr (strip_trunk_prefix phone) ∧
  (normPhone (JStr phone) = inr phone ↔ startsWith "00" phone = false).
Proof.
  intros Hs. apply normPhone_digits in Hs as Hdigits.
  assert (digits_only phone = phone) as Hfix.
  { clear Hs. induction phone as [|c rest IH]; [done|].
    cbn in Hdigits. apply andb_prop in Hdigits as [Hc Hrest].
    cbn. by rewrite Hc, IH. }
  rewrite normPhone_str, Hfix. split; [done|].
  rewrite <- startsWith_00. split.
  - intros [= Heq]. destruct (startsWith "00" phone) eqn:Hp; [|done].
    apply startsWith_00_cases in Hp as [rest ->]. cbn in Heq.
    apply (f_equal String.length) in Heq. cbn in Heq. lia.
  - by intros ->.
Qed.

Lemma normPhone_again_witness :
  normPhone (JStr "0000123") = inr "00123" ∧
  normPhone (JStr "00123") = inr "123".
Proof.
  split; [reflexivity|].
  exact (proj1 (normPhone_again "0000123" "00123" eq_refl)).
Defined.

(* ===================================================================== *)
(** * Further properties of the session state                             *)
(* ===================================================================== *)

(** X4.  [GET /qr] and [GET /status] agree, whatever the session state:
    [/qr] answers 200 exactly when [/status] says [needQr:true], it
    answers 404 with ["no-qr"] exactly when [/status] says [ready:true],
    and one of the two is the case. *)
Theorem qr_agrees_with_status (s : Session) :
  (status (get_qr s) = 200 ↔
   field "needQr" (get_status s) = Some (JBool true)) ∧
  (get_qr s = {| status := 404;
                 json := JObj [("ok", JBool false); ("error", JStr "no-qr")] |}
   ↔ field "ready" (get_status s) = Some (JBool true)) ∧
  (field "needQr" (get_status s) = Some (JBool true) ∨
   field "ready" (get_status s) = Some (JBool true)).
Proof.
  unfold get_qr, get_status, field. cbn.
  destruct (truthy (lastQRData_value s)); cbn; repeat split; try done; auto.
Qed.

(** Events that are neither [qr] nor [ready] leave the held payload as it
    is. *)
Lemma quiet_events_keep (after : list Event) (s : Session) :
  forallb (λ ev, negb (is_qr ev) && negb (is_ready ev)) after = true →
  run_events after s = s.
Proof.
  revert s. induction after as [|ev after IH]; intros s Hq; [done|].
  cbn in Hq. apply andb_prop in Hq as [Hev Hq].
  cbn. rewrite <- (IH s Hq) at 2. f_equal.
  destruct ev; cbn in *; done.
Qed.

(** X5.  While a login is pending, [GET /qr] serves the payload of the
    most recent qr event: after a qr event with a payload that is not
    empty, followed by auth_failure and disconnected events only, the
    answer is 200 with that payload, whatever came before. *)
Theorem qr_serves_latest (before after : list Event) (qr : string)
    (s : Session) :
  qr ≠ "" →
  forallb (λ ev, negb (is_qr ev) && negb (is_ready ev)) after = true →
  get_qr (run_events (before ++ EvQr qr :: after) s) =
    {| status := 200; json := JObj [("ok", JBool true); ("qr", JStr qr)] |}.
Proof.
  intros Hqr Hquiet. unfold run_events. rewrite fold_left_app. cbn [fold_left].
  fold (run_events after (on_event (fold_left on_event before s) (EvQr qr))).
  rewrite (quiet_events_keep after _ Hquiet). cbn.
  unfold get_qr, lastQRData_value. cbn. by destruct qr.
Qed.

Lemma qr_serves_latest_witness :
  get_qr (run_events [EvQr "1@old"; EvReady; EvQr "2@new";
                      EvDisconnected "LOGOUT"] initial_session) =
    {| status := 200;
       json := JObj [("ok", JBool true); ("qr", JStr "2@new")] |}.
Proof.
  apply (qr_serves_latest [EvQr "1@old"; EvReady] [EvDisconnected "LOGOUT"]
           "2@new" initial_session).
  - discriminate.
  - reflexivity.
Defined.

(** X6.  Readiness is never taken back: once a ready event has occurred,
    auth_failure and disconnected events change nothing, so [GET /status]
    goes on reporting [ready:true] and [GET /qr] goes on answering 404,
    until the next qr event. *)
Theorem ready_is_never_reset (before after : list Event) (s : Session) :
  forallb (λ ev, negb (is_qr ev) && negb (is_ready ev)) after = true →
  get_status (run_events (before ++ EvReady :: after) s) =
    {| status := 200;
       json := JObj [("ok", JBool true); ("needQr", JBool false);
                     ("ready", JBool true)] |} ∧
  status (get_qr (run_events (before ++ EvReady :: after) s)) = 404.
Proof.
  intros Hquiet. unfold run_events. rewrite fold_left_app. cbn [fold_left].
  fold (run_events after (on_event (fold_left on_event before s) EvReady)).
  by rewrite (quiet_events_keep after _ Hquiet).
Qed.

Lemma ready_is_never_reset_witness :
  field "ready"
    (get_status (run_events [EvQr "1@abc"; EvReady; EvDisconnected "LOGOUT";
                             EvAuthFailure "expired"] initial_session))
  = Some (JBool true).
Proof.
  pose proof (ready_is_never_reset [EvQr "1@abc"]
                [EvDisconnected "LOGOUT"; EvAuthFailure "expired"]
                initial_session eq_refl) as [Hstatus _].
  cbn [app] in Hstatus. rewrite Hstatus. reflexivity.
Defined.

(* ===================================================================== *)
(** * Further properties of the gateway                                   *)
(* ===================================================================== *)

Lemma not_rejected (phone message : string) :
  rejected phone message = false → phone ≠ "" ∧ message ≠ "".
Proof. unfold rejected. by destruct phone, message. Qed.

(** The four ways through [POST /send]. *)
Lemma post_send_cases {World : Type}
    (sendMessage : string → string → World → option Thrown * World)
    (body : JsVal) (st : Gw World) :
  match item_fields body with
  | inl e => post_send sendMessage body st = (inr (server_error e), st)
  | inr (raw, phone, message) =>
      if rejected phone message
      then post_send sendMessage body st = (inr bad_request, st)
      else
        match sendMessage (phone +:+ "@c.us") message (world st) with
        | (None, w) =>
            post_send sendMessage body st =
            (inr sent_ok,
             {| world := w;
                trace := trace st ++
                         [ESend (phone +:+ "@c.us") message true] |})
        | (Some e, w) =>
            post_send sendMessage body st =
            (inr (server_error e),
             {| world := w;
                trace := trace st ++
                         [ESend (phone +:+ "@c.us") message false] |})
        end
  end.
Proof.
  unfold item_fields, post_send, try_catch, mbind, Eff_bind, lift, rejected.
  destruct (get_prop body "phone") as [e|raw]; [done|].
  destruct (normPhone raw) as [e|phone]; [done|].
  destruct (get_prop body "message") as [e|m]; [done|].
  destruct (toString_method (js_or m (JStr ""))) as [e|message]; [done|].
  destruct (str_empty phone || str_empty message); [done|].
  unfold client_sendMessage.
  by destruct (sendMessage (phone +:+ "@c.us") message (world st))
    as [[e|] w].
Qed.

(** X7.  [POST /send] never throws and answers in one of four ways: 400
    with nothing done; 500 with nothing done, when reading the body
    threw; 200 after exactly one send, which was delivered; 500 after
    exactly one send, which failed.  A send goes to the chat of a phone
    that is not empty and holds digits only, and carries a message that
    is not empty. *)
Theorem post_send_outcomes {World : Type}
    (sendMessage : string → string → World → option Thrown * World)
    (body : JsVal) (st : Gw World) :
  ∃ resp st',
    post_send sendMessage body st = (inr resp, st') ∧
    ((resp = bad_request ∧ st' = st) ∨
     (∃ e, item_fields body = inl e ∧ resp = server_error e ∧ st' = st) ∨
     (∃ phone message delivered,
         phone ≠ "" ∧ all_digits phone = true ∧ message ≠ "" ∧
         world st' = (sendMessage (phone +:+ "@c.us") message (world st)).2 ∧
         trace st' =
           trace st ++ [ESend (phone +:+ "@c.us") message delivered] ∧
         if delivered then resp = sent_ok
         else ∃ e, resp = server_error e)).
Proof.
  pose proof (post_send_cases sendMessage body st) as Hcases.
  destruct (item_fields body) as [e|[[raw phone] message]] eqn:Hf.
  - do 2 eexists. split; [exact Hcases|]. right. left. by exists e.
  - destruct (rejected phone message) eqn:Hrej.
    + do 2 eexists. split; [exact Hcases|]. by left.
    + apply not_rejected in Hrej as [Hp Hm].
      apply item_fields_inr in Hf as (_ & Hdigits%normPhone_digits & _).
      destruct (sendMessage (phone +:+ "@c.us") message (world st))
        as [[e|] w] eqn:Hsend;
        (do 2 eexists; split; [exact Hcases|]; right; right).
      * exists phone, message, false. rewrite Hsend. cbn.
        do 5 (split; [done|]). by exists e.
      * exists phone, message, true. rewrite Hsend. by cbn.
Qed.

Lemma outcomes_proper cfg items rs effs :
  Forall3 (item_outcome cfg) items rs effs →
  Forall proper_send (concat effs).
Proof.
  induction 1 as [|it r eff items rs effs Hit _ IH]; [constructor|].
  cbn [concat]. apply Forall_app. split; [|done].
  destruct Hit as [it raw phone message Hf Hrej|it raw phone message Hf Hrej
                  |it raw phone message e Hf Hrej].
  - constructor.
  - apply not_rejected in Hrej as [Hp Hm].
    apply item_fields_inr in Hf as (_ & Hdigits%normPhone_digits & _).
    constructor; [by exists phone|].
    unfold pacing. destruct (0 <? RATE_DELAY_MS cfg); by repeat constructor.
  - apply not_rejected in Hrej as [Hp Hm].
    apply item_fields_inr in Hf as (_ & Hdigits%normPhone_digits & _).
    constructor; [by exists phone|constructor].
Qed.

(** X8.  Whatever the body, every call of [sendMessage] that [POST /bulk]
    makes goes to the chat of a phone that is not empty and holds digits
    only, with a message that is not empty: the normalized form is the
    only one handed to the session. *)
Theorem bulk_sends_are_proper {World : Type}
    (sendMessage : string → string → World → option Thrown * World)
    (cfg : Config) (body : JsVal) (st : Gw World) :
  ∃ tr,
    trace (post_bulk sendMessage cfg body st).2 = trace st ++ tr ∧
    Forall proper_send tr.
Proof.
  destruct (post_bulk_cases sendMessage cfg body st)
    as [(e & _ & ->)
       |[(v & _ & _ & ->)
        |(items & n & rs & effs & st' & _ & Hall & Htr & Hres)]].
  - exists []. by rewrite app_nil_r.
  - exists []. by rewrite app_nil_r.
  - exists (concat effs). split; [|by eapply outcomes_proper].
    by destruct Hres as [[_ ->]|(it & e & _ & _ & ->)].
Qed.

Lemma outcome_readable cfg it r eff :
  item_outcome cfg it r eff → readable it.
Proof.
  intros Hit. apply readable_fields. destruct Hit; by eexists.
Qed.

(** Where the loop stopped: after the readable items that come before the
    first unreadable one. *)
Lemma stopped_at_first_unreadable cfg (pre post : list JsVal) bad n rs effs :
  Forall readable pre → ¬ readable bad →
  Forall3 (item_outcome cfg) (take n (pre ++ bad :: post)) rs effs →
  (n = length (pre ++ bad :: post) ∨
   ∃ it e, (pre ++ bad :: post) !! n = Some it ∧ item_fields it = inl e) →
  n = length pre.
Proof.
  intros Hpre Hbad Hall Hn.
  destruct (decide (n = length pre)) as [|Hne]; [done|]. exfalso.
  destruct (decide (n < length pre)%nat) as [Hlt|Hge].
  - destruct Hn as [->|(it & e & Hit & He)].
    + rewrite length_app in Hlt. lia.
    + rewrite lookup_app_l in Hit by done.
      apply (Forall_lookup_1 _ _ _ _ Hpre), readable_fields in Hit as [f Hf].
      congruence.
  - assert (take n (pre ++ bad :: post) !! length pre = Some bad) as Hin.
    { rewrite lookup_take_lt by lia. by rewrite list_lookup_middle. }
    assert (∃ r eff, item_outcome cfg bad r eff) as (r & eff & Hout).
    { clear -Hall Hin. revert Hin. generalize (length pre) as i.
      induction Hall as [|x y z l k k' Hx _ IH]; intros i Hi; [done|].
      destruct i as [|i]; [injection Hi as ->; eauto|]. by eapply IH. }
    by apply Hbad, (outcome_readable cfg bad r eff).
Qed.

(** X9.  A 500 from [POST /bulk] does not mean that nothing was sent.
    When an item cannot be read (it is [null], or a conversion throws),
    the answer is 500 with the error of that item and no results, but the
    items before it have been processed: their sends have been made, in
    order, and nothing after it is sent. *)
Theorem bulk_stops_at_unreadable {World : Type}
    (sendMessage : string → string → World → option Thrown * World)
    (cfg : Config) (body : JsVal) (st : Gw World)
    (pre post : list JsVal) (bad : JsVal) :
  get_prop body "items" = inr (JArr (pre ++ bad :: post)) →
  Forall readable pre →
  ¬ readable bad →
  ∃ e st' tr,
    item_fields bad = inl e ∧
    post_bulk sendMessage cfg body st = (inr (server_error e), st') ∧
    trace st' = trace st ++ tr ∧
    sends_of tr = expected_sends pre.
Proof.
  intros Hitems Hpre Hbad.
  destruct (post_bulk_cases sendMessage cfg body st)
    as [(e & Hthrow & _)
       |[(v & Hv & Hno & _)
        |(items & n & rs & effs & st' & Hitems' & Hall & Htr & Hres)]].
  - congruence.
  - rewrite Hitems in Hv. injection Hv as <-.
    by destruct (Hno (pre ++ bad :: post)).
  - rewrite Hitems in Hitems'. injection Hitems' as <-.
    assert (n = length pre) as ->.
    { eapply stopped_at_first_unreadable; [done..|].
      destruct Hres as [[-> _]|(it & e & Hit & He & _)]; [by left|].
      right. by exists it, e. }
    rewrite take_app_length in Hall.
    destruct Hres as [[Hlen _]|(it & e & Hit & He & Hrun)].
    { rewrite length_app in Hlen. cbn in Hlen. lia. }
    rewrite list_lookup_middle in Hit by done. injection Hit as <-.
    exists e, st', (concat effs). split; [done|]. split; [done|].
    split; [done|]. by eapply outcomes_sends.
Qed.

Lemma bulk_stops_at_unreadable_witness :
  ∃ st',
    post_bulk scripted sample_cfg
      (bulk_body [item "+20 100" "hi"; JNull; item "+20 200" "hi"])
      (fresh []) =
    (inr (server_error (cannot_read "null" "phone")), st') ∧
    sends_of (trace st') = [("20100@c.us", "hi")].
Proof.
  destruct (bulk_stops_at_unreadable scripted sample_cfg
              (bulk_body [item "+20 100" "hi"; JNull; item "+20 200" "hi"])
              (fresh []) [item "+20 100" "hi"] [item "+20 200" "hi"] JNull)
    as (e & st' & tr & He & Hrun & Htr & Hsends).
  - reflexivity.
  - by repeat constructor.
  - intros [].
  - injection He as <-. exists st'. split; [exact Hrun|].
    rewrite Htr. exact Hsends.
Defined.

(** X10.  [POST /bulk] answers 200 exactly when the body can be read and
    every item can be read; in every other case it answers 500. *)
Theorem bulk_200_iff {World : Type}
    (sendMessage : string → string → World → option Thrown * World)
    (cfg : Config) (body : JsVal) (st : Gw World) :
  ((∃ results,
       (post_bulk sendMessage cfg body st).1 = inr (bulk_ok results)) ↔
   (∃ v, get_prop body "items" = inr v) ∧
   Forall readable (batch_items body)) ∧
  ((∃ results,
       (post_bulk sendMessage cfg body st).1 = inr (bulk_ok results)) ∨
   (∃ e, (post_bulk sendMessage cfg body st).1 = inr (server_error e))).
Proof.
  unfold batch_items.
  destruct (post_bulk_cases sendMessage cfg body st)
    as [(e & Hthrow & ->)
       |[(v & Hv & Hno & ->)
        |(items & n & rs & effs & st' & Hitems & Hall & Htr & Hres)]].
  - rewrite Hthrow. split; [|right; by exists e]. split.
    + by intros [results [=]].
    + by intros [[v [=]] _].
  - rewrite Hv. split; [|left; by exists []]. split; [|by exists []].
    intros _. split; [by exists v|].
    destruct v; try constructor. by destruct (Hno elems).
  - rewrite Hitems.
    destruct Hres as [[-> ->]|(it & e & Hit & He & ->)].
    + rewrite firstn_all in Hall.
      split; [|left; by exists rs]. split; [|by exists rs].
      intros _. split; [by eexists|].
      clear -Hall. induction Hall; constructor; [|done].
      by eapply outcome_readable.
    + split; [|right; by exists e]. split; [by intros [results [=]]|].
      intros [_ Hread]. by destruct (readable_not_thrown items n it e).
Qed.

Lemma post_bulk_items {World : Type}
    (sendMessage : string → string → World → option Thrown * World)
    (cfg : Config) (body : JsVal) (items : list JsVal) (st : Gw World) :
  get_prop body "items" = inr (JArr items) →
  post_bulk sendMessage cfg body st =
  match bulk_loop sendMessage cfg items [] st with
  | (inr rs, st') => (inr (bulk_ok rs), st')
  | (inl e, st') => (inr (server_error e), st')
  end.
Proof.
  intros Hitems. unfold post_bulk, try_catch, mbind, Eff_bind, lift.
  rewrite Hitems.
  by destruct (bulk_loop sendMessage cfg items [] st) as [[e|rs] st'].
Qed.

(** The loop run on a list of items that is split in two. *)
Lemma bulk_loop_app {World : Type}
    (sendMessage : string → string → World → option Thrown * World)
    (cfg : Config) (l1 l2 : list JsVal) : ∀ acc st,
  bulk_loop sendMessage cfg (l1 ++ l2) acc st =
  match bulk_loop sendMessage cfg l1 acc st with
  | (inr rs, st1) => bulk_loop sendMessage cfg l2 rs st1
  | (inl e, st1) => (inl e, st1)
  end.
Proof.
  induction l1 as [|it l1 IH]; intros acc st; [done|].
  change ((it :: l1) ++ l2) with (it :: (l1 ++ l2)).
  destruct (item_fields it) as [e|[[raw phone] message]] eqn:Hf.
  - by rewrite !(bulk_loop_throw _ _ _ _ _ _ _ Hf).
  - destruct (rejected phone message) eqn:Hrej.
    + rewrite !(bulk_loop_rejected _ _ _ _ _ _ _ _ _ Hf Hrej). apply IH.
    + destruct (sendMessage (phone +:+ "@c.us") message (world st))
        as [[e|] w] eqn:Hsend.
      * rewrite !(bulk_loop_failed _ _ _ _ _ _ _ _ _ _ _ Hf Hrej Hsend).
        apply IH.
      * rewrite !(bulk_loop_sent _ _ _ _ _ _ _ _ _ _ Hf Hrej Hsend).
        apply IH.
Qed.

(** The array built so far is only appended to. *)
Lemma bulk_loop_acc {World : Type}
    (sendMessage : string → string → World → option Thrown * World)
    (cfg : Config) (items : list JsVal) : ∀ acc st,
  bulk_loop sendMessage cfg items acc st =
  match bulk_loop sendMessage cfg items [] st with
  | (inr rs, st') => (inr (acc ++ rs), st')
  | (inl e, st') => (inl e, st')
  end.
Proof.
  induction items as [|it items IH]; intros acc st.
  - cbn. by rewrite app_nil_r.
  - destruct (item_fields it) as [e|[[raw phone] message]] eqn:Hf.
    + by rewrite !(bulk_loop_throw _ _ _ _ _ _ _ Hf).
    + assert (∀ x st1,
          bulk_loop sendMessage cfg items (acc ++ [x]) st1 =
          match bulk_loop sendMessage cfg items ([] ++ [x]) st1 with
          | (inr rs, st') => (inr (acc ++ rs), st')
          | (inl e, st') => (inl e, st')
          end) as Hshift.
      { intros x st1. rewrite (IH (acc ++ [x])), (IH ([] ++ [x])).
        destruct (bulk_loop sendMessage cfg items [] st1) as [[e|rs] st'];
          [done|]. by rewrite <- app_assoc. }
      destruct (rejected phone message) eqn:Hrej.
      * rewrite !(bulk_loop_rejected _ _ _ _ _ _ _ _ _ Hf Hrej).
        apply Hshift.
      * destruct (sendMessage (phone +:+ "@c.us") message (world st))
          as [[e|] w] eqn:Hsend.
        -- rewrite !(bulk_loop_failed _ _ _ _ _ _ _ _ _ _ _ Hf Hrej Hsend).
           apply Hshift.
        -- rewrite !(bulk_loop_sent _ _ _ _ _ _ _ _ _ _ Hf Hrej Hsend).
           apply Hshift.
Qed.

(** X11.  A batch can be split: when the first part of the items, sent as
    one request, is answered 200, and the second part, sent next, is
    answered 200, then the whole list sent as one request from the same
    state is answered 200 with the two [results] arrays one after the
    other, and leaves the same session and the same trace. *)
Theorem bulk_split {World : Type}
    (sendMessage : string → string → World → option Thrown * World)
    (cfg : Config) (l1 l2 r1 r2 : list JsVal) (st st1 st2 : Gw World) :
  post_bulk sendMessage cfg (bulk_body l1) st = (inr (bulk_ok r1), st1) →
  post_bulk sendMessage cfg (bulk_body l2) st1 = (inr (bulk_ok r2), st2) →
  post_bulk sendMessage cfg (bulk_body (l1 ++ l2)) st =
    (inr (bulk_ok (r1 ++ r2)), st2).
Proof.
  rewrite !(post_bulk_items sendMessage cfg (bulk_body _) _ _ eq_refl).
  rewrite bulk_loop_app.
  destruct (bulk_loop sendMessage cfg l1 [] st) as [[e|rs1] st1'];
    [by intros [=]|].
  intros [= <- <-]. rewrite (bulk_loop_acc sendMessage cfg l2 rs1 st1').
  destruct (bulk_loop sendMessage cfg l2 [] st1') as [[e|rs2] st2'];
    [by intros [=]|].
  by intros [= <- <-].
Qed.

Lemma bulk_split_witness :
  post_bulk scripted sample_cfg
    (bulk_body ([item "1" "a"] ++ [item "" "b"; item "2" "c"]))
    (fresh [Some not_ready]) =
  (inr (bulk_ok ([entry_failed "1" not_ready] ++
                 [entry_bad (JStr ""); entry_sent "2"])),
   {| world := [];
      trace := [ESend "1@c.us" "a" false; ESend "2@c.us" "c" true;
                EDelay 120] |}).
Proof.
  apply (bulk_split scripted sample_cfg [item "1" "a"]
           [item "" "b"; item "2" "c"] _ _ (fresh [Some not_ready])
           {| world := []; trace := [ESend "1@c.us" "a" false] |}).
  - reflexivity.
  - reflexivity.
Defined.





(** X13.  A batch of one item does what [POST /send] does with that item
    as its body: the same call of [sendMessage] or none, the same session
    afterwards.  [/send] answers 200 exactly when the entry of the batch
    says [ok:true]; when it answers 400 the entry is that of a bad item,
    and when it answers 500 the batch is answered 500 too (the item could
    not be read) or its entry reports the failed send. *)
Theorem bulk_of_one_matches_send {World : Type}
    (sendMessage : string → string → World → option Thrown * World)
    (cfg : Config) (it : JsVal) (st : Gw World) :
  world (post_send sendMessage it st).2 =
    world (post_bulk sendMessage cfg (bulk_body [it]) st).2 ∧
  sends_of (trace (post_send sendMessage it st).2) =
    sends_of (trace (post_bulk sendMessage cfg (bulk_body [it]) st).2) ∧
  ∃ r1 r2,
    (post_send sendMessage it st).1 = inr r1 ∧
    (post_bulk sendMessage cfg (bulk_body [it]) st).1 = inr r2 ∧
    (status r1 = 200 ∨ status r1 = 400 ∨ status r1 = 500) ∧
    (status r1 = 200 ↔ ∃ phone, r2 = bulk_ok [entry_sent phone]) ∧
    (status r1 = 400 → ∃ raw, r2 = bulk_ok [entry_bad raw]) ∧
    (status r1 = 500 →
     (∃ e, r2 = server_error e) ∨
     (∃ phone e, r2 = bulk_ok [entry_failed phone e])).
Proof.
  rewrite (post_bulk_items sendMessage cfg (bulk_body [it]) [it] st eq_refl).
  pose proof (post_send_cases sendMessage it st) as Hsend.
  destruct (item_fields it) as [e|[[raw phone] message]] eqn:Hf.
  - rewrite Hsend, (bulk_loop_throw _ _ _ _ _ _ _ Hf). cbn.
    split; [done|]. split; [done|]. do 2 eexists.
    split; [done|]. split; [done|]. split; [auto|]. split; [|split].
    + split; [done|by intros [? [=]]].
    + done.
    + intros _; left; by exists e.
  - destruct (rejected phone message) eqn:Hrej.
    + rewrite Hsend, (bulk_loop_rejected _ _ _ _ _ _ _ _ _ Hf Hrej). cbn.
      split; [done|]. split; [done|]. do 2 eexists.
      split; [done|]. split; [done|]. split; [auto|]. split; [|split].
      * split; [done|by intros [? [=]]].
      * intros _; by exists raw.
      * done.
    + destruct (sendMessage (phone +:+ "@c.us") message (world st))
        as [[e|] w] eqn:Hrun.
      * rewrite Hsend, (bulk_loop_failed _ _ _ _ _ _ _ _ _ _ _ Hf Hrej Hrun).
        cbn. split; [done|]. split; [done|]. do 2 eexists.
        split; [done|]. split; [done|]. split; [auto|]. split; [|split].
        -- split; [done|by intros [? [=]]].
        -- done.
        -- intros _; right; by exists phone, e.
      * rewrite Hsend, (bulk_loop_sent _ _ _ _ _ _ _ _ _ _ Hf Hrej Hrun).
        cbn. split; [done|].
        split; [by rewrite !sends_of_app; cbn; rewrite pacing_no_send|].
        do 2 eexists. split; [done|]. split; [done|]. split; [auto|].
        split; [|split].
        -- split; [intros _; by exists phone|done].
        -- done.
        -- done.
Qed.

(* ===================================================================== *)
(** * Further properties of the filesystem operations                     *)
(* ===================================================================== *)

Lemma mkdir_each_again (todo : list path) : ∀ fs r fs',
  mkdir_each todo fs = (r, fs') → mkdir_each todo fs' = (r, fs').
Proof.
  induction todo as [|q rest IH]; intros fs r fs' Hrun.
  - by injection Hrun as <- <-.
  - cbn [mkdir_each] in *.
    destruct (decide (q ∈ entries fs)) as [Hin|Hin].
    + rewrite bool_decide_eq_true_2 in Hrun by done.
      destruct (mkdir_each_spec rest fs) as (r1 & fs1 & Hrun1 & _ & Hsub & _).
      rewrite Hrun in Hrun1. injection Hrun1 as <- <-.
      rewrite bool_decide_eq_true_2 by by apply Hsub. by eapply IH.
    + rewrite bool_decide_eq_false_2 in Hrun by done.
      destruct (decide (q ∈ denied fs)) as [Hden|Hden].
      * rewrite bool_decide_eq_true_2 in Hrun by done.
        injection Hrun as <- <-.
        by rewrite bool_decide_eq_false_2, bool_decide_eq_true_2.
      * rewrite bool_decide_eq_false_2 in Hrun by done.
        destruct (mkdir_each_spec rest
                    {| entries := {[q]} ∪ entries fs; denied := denied fs |})
          as (r1 & fs1 & Hrun1 & _ & Hsub & _).
        rewrite Hrun in Hrun1. injection Hrun1 as <- <-.
        rewrite bool_decide_eq_true_2 by (apply Hsub; cbn; set_solver).
        by eapply IH.
Qed.

(** X14.  [ensureDir] never throws and never removes anything; nothing it
    creates lies off the way to its argument; and calling it again changes
    nothing more. *)
Theorem ensureDir_settles (p : path) (fs : Fs) :
  ∃ fs',
    ensureDir p fs = (inr tt, fs') ∧
    ensureDir p fs' = (inr tt, fs') ∧
    denied fs' = denied fs ∧
    entries fs ⊆ entries fs' ∧
    (∀ q, q ∈ entries fs' → q ∈ entries fs ∨ q ∈ ancestors_and_self p).
Proof.
  destruct (ensureDir_spec p fs) as (fs' & Hrun & Hd & Hsub & Hnew & _).
  exists fs'. split; [done|]. split; [|split; [done|split; [done|]]].
  - unfold ensureDir, try_catch, mkdirSync in *.
    destruct (mkdir_each (ancestors_and_self p) fs) as [r fs1] eqn:Hmk.
    assert (fs1 = fs') as -> by (by destruct r as [e|[]]; injection Hrun).
    rewrite (mkdir_each_again _ _ _ _ Hmk). by destruct r as [e|[]].
  - intros q [Hq|[Hq _]]%Hnew; auto.
Qed.

(** What is left after [removeSingletonLocks], entry by entry. *)
Lemma removeSingletonLocks_entries (dir : path) (fs : Fs) :
  ∃ fs',
    removeSingletonLocks dir fs = (inr tt, fs') ∧
    denied fs' = denied fs ∧
    ∀ q, q ∈ entries fs' ↔
         (q ∈ entries fs ∧
          ¬ (q = path_join dir "SingletonLock" ∧ (q ∉ denied fs)) ∧
          ¬ (q = path_join dir "SingletonCookie" ∧ (q ∉ denied fs) ∧
             ¬ (path_join dir "SingletonLock" ∈ entries fs ∧
                path_join dir "SingletonLock" ∈ denied fs))).
Proof.
  pose proof (lock_markers_distinct dir) as Hne.
  unfold removeSingletonLocks, try_catch, remove_each, mbind, Eff_bind,
    existsSync, rmSync. cbn. unfold mret, Eff_ret.
  repeat (case_bool_decide; cbn);
    (eexists; split; [reflexivity|]; cbn; split; [done|]).
  all: intros q; set_unfold.
  all: destruct (decide (q = path_join dir "SingletonLock")) as [->|];
    [|destruct (decide (q = path_join dir "SingletonCookie")) as [->|]].
  all: intuition congruence.
Qed.

(** X15.  [removeSingletonLocks] never throws and touches the two markers
    only.  It removes [SingletonLock] unless that is refused, and removes
    [SingletonCookie] unless that is refused or the removal of an existing
    [SingletonLock] was refused before it: the loop stops at the first
    refusal, so a cookie that could be removed is then left in place. *)
Theorem removeSingletonLocks_exactly (dir : path) (fs : Fs) :
  ∃ fs',
    removeSingletonLocks dir fs = (inr tt, fs') ∧
    denied fs' = denied fs ∧
    ∀ q, q ∈ entries fs' ↔
         (q ∈ entries fs ∧
          ¬ (q = path_join dir "SingletonLock" ∧ (q ∉ denied fs)) ∧
          ¬ (q = path_join dir "SingletonCookie" ∧ (q ∉ denied fs) ∧
             ¬ (path_join dir "SingletonLock" ∈ entries fs ∧
                path_join dir "SingletonLock" ∈ denied fs))).
Proof. exact (removeSingletonLocks_entries dir fs). Qed.

Lemma removeSingletonLocks_exactly_witness :
  removeSingletonLocks (default_path sample_cfg) fs_first_held =
  (inr tt, fs_first_held).
Proof.
  destruct (removeSingletonLocks_exactly (default_path sample_cfg)
              fs_first_held) as (fs' & Hrun & Hd & Hin).
  rewrite Hrun. f_equal. destruct fs' as [es ds]. cbn [denied] in Hd.
  cbn [entries] in Hin. subst ds.
  unfold fs_first_held in *. cbn [entries denied] in *. f_equal.
  apply set_eq. intros q. rewrite Hin. unfold sample_lock. set_unfold.
  intuition congruence.
Defined.

(** X16.  A second [removeSingletonLocks] changes nothing more: whatever
    the first call could not remove, the second cannot either. *)
Theorem removeSingletonLocks_idempotent (dir : path) (fs : Fs) :
  removeSingletonLocks dir (removeSingletonLocks dir fs).2 =
  removeSingletonLocks dir fs.
Proof.
  pose proof (lock_markers_distinct dir) as Hne.
  destruct (removeSingletonLocks_entries dir fs) as (fs1 & Hrun1 & Hd1 & Hin1).
  destruct (removeSingletonLocks_entries dir fs1)
    as (fs2 & Hrun2 & Hd2 & Hin2).
  rewrite Hrun1. cbn [snd]. rewrite Hrun2. f_equal.
  destruct fs1 as [es1 ds1], fs2 as [es2 ds2]. cbn [entries denied] in *.
  subst ds2 ds1. f_equal. apply set_eq. intros q.
  rewrite Hin2, !Hin1.
  destruct (decide (path_join dir "SingletonLock" ∈ denied fs)),
           (decide (path_join dir "SingletonCookie" ∈ denied fs));
    intuition congruence.
Qed.

(* ===================================================================== *)
(** * Further properties of the profile-directory resolver                *)
(* ===================================================================== *)

(** The three ways through the resolver, with the states in between. *)
Lemma pickProfileDir_run (cfg : Config) (now : Date) (fs : Fs) :
  ∃ fs1 fs2 fs3,
    ensureDir (PROFILES_ROOT cfg) fs = (inr tt, fs1) ∧
    removeSingletonLocks (default_path cfg) fs1 = (inr tt, fs2) ∧
    ensureDir (rotated_path cfg now) fs2 = (inr tt, fs3) ∧
    ((¬ locked fs (default_path cfg) ∧
      pickProfileDir cfg now fs = (inr (default_path cfg), fs1)) ∨
     (locked fs (default_path cfg) ∧ ¬ stuck fs (default_path cfg) ∧
      pickProfileDir cfg now fs = (inr (default_path cfg), fs2)) ∨
     (stuck fs (default_path cfg) ∧
      pickProfileDir cfg now fs = (inr (rotated_path cfg now), fs3))).
Proof.
  destruct (ensureDir_spec (PROFILES_ROOT cfg) fs) as (fs1 & Hrun1 & _).
  destruct (ensureDir_keeps_locks cfg "" _ fs fs1 (or_introl eq_refl) Hrun1)
    as [Hlocked1 Hstuck1].
  destruct (hasSingletonLocks_spec (default_path cfg) fs1)
    as (b1 & Hrun2 & Hb1).
  destruct (removeSingletonLocks_spec (default_path cfg) fs1)
    as (fs2 & Hrun3 & _ & _ & _ & Hlocked2).
  destruct (hasSingletonLocks_spec (default_path cfg) fs2)
    as (b2 & Hrun4 & Hb2).
  destruct (ensureDir_spec (rotated_path cfg now) fs2) as (fs3 & Hrun5 & _).
  exists fs1, fs2, fs3. split; [done|]. split; [done|]. split; [done|].
  unfold pickProfileDir, mbind, Eff_bind. rewrite Hrun1.
  fold (default_path cfg). rewrite Hrun2.
  destruct b1; cbn [negb].
  - rewrite Hrun3, Hrun4. destruct b2; cbn [negb].
    + right. right. split; [by apply Hstuck1, Hlocked2, Hb2|].
      rewrite stamp_to_the_second. fold (rotated_path cfg now).
      by rewrite Hrun5.
    + right. left. split; [by apply Hlocked1, Hb1|]. split; [|done].
      intros Hstuck%Hstuck1%Hlocked2%Hb2. done.
  - left. split; [|done]. intros Hlocked%Hlocked1%Hb1. done.
Qed.

Lemma marker_length (dir p : path) :
  p ∈ lock_markers dir → length p = S (length dir).
Proof.
  unfold lock_markers, path_join. rewrite !elem_of_cons.
  intros [->|[->|[]%elem_of_nil]]; rewrite length_app; cbn; lia.
Qed.

(** The resolver returns, and what it does to the entries: none leaves
    but the two marker entries of the default path, none comes but on the
    way to the profiles root or to the rotated path. *)
Lemma pickProfileDir_frame (cfg : Config) (now : Date) (fs : Fs) :
  ∃ dir fs',
    pickProfileDir cfg now fs = (inr dir, fs') ∧
    (dir = default_path cfg ∨ dir = rotated_path cfg now) ∧
    denied fs' = denied fs ∧
    (∀ q, q ∈ entries fs → q ∉ lock_markers (default_path cfg) →
          q ∈ entries fs') ∧
    (∀ q, q ∈ entries fs' →
          q ∈ entries fs ∨
          q ∈ ancestors_and_self (PROFILES_ROOT cfg) ∨
          q ∈ ancestors_and_self (rotated_path cfg now)).
Proof.
  destruct (pickProfileDir_run cfg now fs)
    as (fs1 & fs2 & fs3 & Hrun1 & Hrun2 & Hrun3 & Hcases).
  destruct (ensureDir_spec (PROFILES_ROOT cfg) fs)
    as (fs1' & Hrun1' & Hd1 & Hsub1 & Hnew1 & _).
  rewrite Hrun1 in Hrun1'. injection Hrun1' as <-.
  destruct (removeSingletonLocks_spec (default_path cfg) fs1)
    as (fs2' & Hrun2' & Hd2 & Hsub2 & Hkept2 & _).
  rewrite Hrun2 in Hrun2'. injection Hrun2' as <-.
  destruct (ensureDir_spec (rotated_path cfg now) fs2)
    as (fs3' & Hrun3' & Hd3 & Hsub3 & Hnew3 & _).
  rewrite Hrun3 in Hrun3'. injection Hrun3' as <-.
  destruct Hcases as [[_ ->]|[(_ & _ & ->)|[_ ->]]].
  - exists (default_path cfg), fs1. split; [done|]. split; [by left|].
    split; [done|]. split; [by intros q Hq _; apply Hsub1|].
    intros q [Hq|[Hq _]]%Hnew1; auto.
  - exists (default_path cfg), fs2. split; [done|]. split; [by left|].
    split; [congruence|]. split.
    + intros q Hq Hm. apply Hkept2; [by apply Hsub1|done].
    + intros q [Hq|[Hq _]]%Hsub2%Hnew1; auto.
  - exists (rotated_path cfg now), fs3. split; [done|]. split; [by right|].
    split; [congruence|]. split.
    + intros q Hq Hm. apply Hsub3, Hkept2; [by apply Hsub1|done].
    + intros q [Hq|[Hq _]]%Hnew3; [|auto].
      apply Hsub2, Hnew1 in Hq as [Hq|[Hq _]]; auto.
Qed.

(** X17.  With a [CLIENT_ID] that is one plain component of a path (not
    empty, neither [.] nor [..], no separator in it), so that [path.join]
    appends the profile name as it stands: the resolver never throws,
    returns the default path or the rotated one, and is careful with the
    filesystem: it removes nothing but the two markers of the default
    profile, and whatever it creates lies on the way to the profiles root
    or to the rotated directory. *)
Theorem pickProfileDir_never_throws (cfg : Config) (now : Date) (fs : Fs) :
  plain_component (CLIENT_ID cfg) →
  ∃ dir fs',
    pickProfileDir cfg now fs = (inr dir, fs') ∧
    (dir = default_path cfg ∨ dir = rotated_path cfg now) ∧
    denied fs' = denied fs ∧
    (∀ q, q ∈ entries fs → q ∉ lock_markers (default_path cfg) →
          q ∈ entries fs') ∧
    (∀ q, q ∈ entries fs' →
          q ∈ entries fs ∨
          q ∈ ancestors_and_self (PROFILES_ROOT cfg) ∨
          q ∈ ancestors_and_self (rotated_path cfg now)).
Proof. intros _. exact (pickProfileDir_frame cfg now fs). Qed.

Lemma pickProfileDir_never_throws_witness :
  plain_component (CLIENT_ID sample_cfg) ∧
  ∃ dir fs',
    pickProfileDir sample_cfg sample_date fs_stale = (inr dir, fs') ∧
    ["app"] ∈ entries fs' ∧ denied fs' = ∅.
Proof.
  assert (plain_component (CLIENT_ID sample_cfg)) as Hplain.
  { repeat split; discriminate. }
  split; [exact Hplain|].
  destruct (pickProfileDir_never_throws sample_cfg sample_date fs_stale Hplain)
    as (dir & fs' & Hpick & _ & Hd & Hkept & _).
  exists dir, fs'. split; [exact Hpick|]. split; [|exact Hd].
  apply Hkept.
  - unfold fs_stale. cbn [entries]. set_solver.
  - intros Hm%marker_length. vm_compute in Hm. discriminate Hm.
Defined.

(** X18.  Stale markers are cleared: when the default profile holds lock
    markers and none of them is refused removal, the resolver returns the
    default path and no marker is left in it. *)
Theorem pickProfileDir_clears_stale (cfg : Config) (now : Date) (fs : Fs) :
  locked fs (default_path cfg) →
  ¬ stuck fs (default_path cfg) →
  ∃ fs',
    pickProfileDir cfg now fs = (inr (default_path cfg), fs') ∧
    ¬ locked fs' (default_path cfg).
Proof.
  intros Hlocked Hfree.
  destruct (pickProfileDir_run cfg now fs)
    as (fs1 & fs2 & fs3 & Hrun1 & Hrun2 & _ & Hcases).
  destruct Hcases as [[Hno _]|[(_ & _ & Hpick)|[Hstuck _]]]; [done| |done].
  exists fs2. split; [done|].
  destruct (ensureDir_keeps_locks cfg "" _ fs fs1 (or_introl eq_refl) Hrun1)
    as [_ Hstuck1].
  destruct (removeSingletonLocks_spec (default_path cfg) fs1)
    as (fs2' & Hrun2' & _ & _ & _ & Hlocked2).
  rewrite Hrun2 in Hrun2'. injection Hrun2' as <-.
  by intros Hl%Hlocked2%Hstuck1.
Qed.

Lemma pickProfileDir_clears_stale_witness :
  ∃ fs',
    pickProfileDir sample_cfg sample_date fs_stale =
      (inr ["app"; ".chrome_profiles"; "nour"], fs') ∧
    ¬ locked fs' (default_path sample_cfg).
Proof.
  apply (pickProfileDir_clears_stale sample_cfg sample_date fs_stale).
  - exists sample_lock. split; [by left|].
    unfold fs_stale. cbn [entries]. set_solver.
  - intros (p & _ & _ & Hden). unfold fs_stale in Hden. cbn [denied] in Hden.
    by apply not_elem_of_empty in Hden.
Defined.

(** A marker found in the directory the resolver returns was there before
    the call, in a directory of the rotated name. *)
Lemma returned_marker (cfg : Config) (now : Date) (fs fs' : Fs)
    (dir m : path) :
  pickProfileDir cfg now fs = (inr dir, fs') →
  m ∈ lock_markers dir → m ∈ entries fs' →
  dir = rotated_path cfg now ∧ m ∈ entries fs.
Proof.
  intros Hpick Hm Hin.
  destruct (pickProfileDir_run cfg now fs)
    as (fs1 & fs2 & fs3 & Hrun1 & Hrun2 & Hrun3 & Hcases).
  destruct (ensureDir_keeps_locks cfg "" _ fs fs1 (or_introl eq_refl) Hrun1)
    as [Hlocked1 Hstuck1].
  destruct (ensureDir_spec (PROFILES_ROOT cfg) fs)
    as (fs1' & Hrun1' & _ & _ & Hnew1 & _).
  rewrite Hrun1 in Hrun1'. injection Hrun1' as <-.
  destruct (removeSingletonLocks_spec (default_path cfg) fs1)
    as (fs2' & Hrun2' & _ & Hsub2 & _ & Hlocked2).
  rewrite Hrun2 in Hrun2'. injection Hrun2' as <-.
  destruct (ensureDir_spec (rotated_path cfg now) fs2)
    as (fs3' & Hrun3' & _ & _ & Hnew3 & _).
  rewrite Hrun3 in Hrun3'. injection Hrun3' as <-.
  destruct Hcases as [[Hno Hp]|[(_ & Hfree & Hp)|[_ Hp]]];
    rewrite Hpick in Hp; injection Hp as -> ->.
  - destruct Hno. apply Hlocked1. by exists m.
  - destruct Hfree. apply Hstuck1, Hlocked2. by exists m.
  - split; [done|].
    pose proof (marker_length _ _ Hm) as Hlen.
    unfold rotated_path, path_join in Hlen. rewrite length_app in Hlen.
    apply Hnew3 in Hin as [Hin|[Hin%ancestors_length _]].
    + apply Hsub2, Hnew1 in Hin as [Hin|[Hin%ancestors_length _]]; [done|].
      cbn in Hlen. lia.
    + unfold rotated_path, path_join in Hin. rewrite length_app in Hin.
      cbn in Hlen, Hin. lia.
Qed.

(** X19.  The directory the resolver returns holds no lock marker, with
    one exception: the rotated directory already existed with a marker in
    it (a rotation earlier in the same second), which the resolver does
    not look for. *)
Theorem pickProfileDir_returns_unlocked (cfg : Config) (now : Date)
    (fs : Fs) :
  ∃ dir fs',
    pickProfileDir cfg now fs = (inr dir, fs') ∧
    (locked fs' dir →
     dir = rotated_path cfg now ∧ locked fs (rotated_path cfg now)) ∧
    (¬ locked fs (rotated_path cfg now) → ¬ locked fs' dir).
Proof.
  destruct (pickProfileDir_frame cfg now fs)
    as (dir & fs' & Hpick & _).
  assert (locked fs' dir →
          dir = rotated_path cfg now ∧ locked fs (rotated_path cfg now))
    as Himp.
  { intros (m & Hm & Hin).
    destruct (returned_marker cfg now fs fs' dir m Hpick Hm Hin) as [-> Hfs].
    split; [done|]. by exists m. }
  exists dir, fs'. split; [done|]. split; [done|].
  intros Hfree Hlocked. by destruct (Himp Hlocked).
Qed.

Lemma pickProfileDir_returns_unlocked_witness :
  ¬ locked (pickProfileDir sample_cfg sample_date fs_held).2
           (rotated_path sample_cfg sample_date).
Proof.
  destruct (pickProfileDir_returns_unlocked sample_cfg sample_date fs_held)
    as (dir & fs' & Hpick & _ & Hfree).
  assert (stuck fs_held (default_path sample_cfg)) as Hstuck.
  { exists sample_lock. split; [by left|].
    unfold fs_held. cbn [entries denied]. split; set_solver. }
  destruct (pickProfileDir_stuck sample_cfg sample_date fs_held Hstuck)
    as (fs'' & Hpick' & _).
  rewrite Hpick in Hpick'. injection Hpick' as -> <-.
  rewrite Hpick. apply Hfree.
  intros (m & Hm & Hin).
  unfold fs_held in Hin. cbn [entries] in Hin.
  unfold lock_markers in Hm. rewrite !elem_of_cons in Hm.
  set_unfold.
  destruct Hin as [[[-> | ->] | ->] | ->];
    destruct Hm as [Hm|[Hm|[]]]; vm_compute in Hm; discriminate Hm.
Defined.

(** A marker of the auth session directory is no marker of a profile
    directory. *)
Lemma auth_marker_not_profile (cfg : Config) (name : string) (m : path) :
  m ∈ lock_markers (auth_session_dir cfg) →
  m ∉ lock_markers (path_join (PROFILES_ROOT cfg) name).
Proof.
  unfold lock_markers, auth_session_dir, PROFILES_ROOT, path_join.
  rewrite !elem_of_cons, <- !app_assoc. cbn [app].
  intros [->|[->|[]%elem_of_nil]] [Heq|[Heq|[]%elem_of_nil]];
    by apply app_inv_head in Heq.
Qed.

(** X20.  The file operations of start-up never throw.  After them the
    profile directory handed to the browser holds a lock marker only if
    it is the rotated directory and a marker that was in it before cannot
    be removed; and the auth session directory holds a marker exactly
    when one of its markers cannot be removed. *)
Theorem startup_files_outcome (cfg : Config) (now : Date) (fs : Fs) :
  ∃ dir fs',
    startup_files cfg now fs = (inr dir, fs') ∧
    (pickProfileDir cfg now fs).1 = inr dir ∧
    denied fs' = denied fs ∧
    (locked fs' dir →
     dir = rotated_path cfg now ∧ stuck fs (rotated_path cfg now)) ∧
    (locked fs' (auth_session_dir cfg) ↔ stuck fs (auth_session_dir cfg)).
Proof.
  destruct (pickProfileDir_frame cfg now fs)
    as (dir & fsA & Hpick & Hdir & HdA & HkeptA & HnewA).
  destruct (removeSingletonLocks_spec (auth_session_dir cfg) fsA)
    as (fsB & HrunB & HdB & HsubB & HkeptB & HlockedB).
  destruct (removeSingletonLocks_spec dir fsB)
    as (fsC & HrunC & HdC & HsubC & HkeptC & HlockedC).
  assert (∃ name, dir = path_join (PROFILES_ROOT cfg) name) as [name Hname].
  { destruct Hdir as [-> | ->]; eexists; reflexivity. }
  exists dir, fsC. split; [|split; [by rewrite Hpick|split; [congruence|]]].
  { unfold startup_files, cleanAuthSingletons, mbind, Eff_bind, try_catch.
    by rewrite Hpick, HrunB, HrunC. }
  split.
  - intros (m & Hm & HinB & Hden)%HlockedC.
    destruct (returned_marker cfg now fs fsA dir m Hpick Hm)
      as [-> Hfs]; [by apply HsubB|].
    split; [done|]. exists m. split; [done|]. split; [done|]. congruence.
  - split.
    + intros (m & Hm & HinC). 
      assert (locked fsB (auth_session_dir cfg)) as HB.
      { exists m. split; [done|]. by apply HsubC. }
      apply HlockedB in HB as (m' & Hm' & Hin' & Hden').
      exists m'. split; [done|]. split; [|congruence].
      pose proof (marker_length _ _ Hm') as Hlen.
      unfold auth_session_dir, path_join in Hlen.
      rewrite !length_app in Hlen. cbn in Hlen.
      apply HnewA in Hin' as [Hin'|[Hin'%ancestors_length
                                  |Hin'%ancestors_length]]; [done|..].
      * unfold PROFILES_ROOT, path_join in Hin'.
        rewrite length_app in Hin'. cbn in Hin'. lia.
      * unfold rotated_path, PROFILES_ROOT, path_join in Hin'.
        rewrite !length_app in Hin'. cbn in Hin'. lia.
    + intros (m & Hm & Hin & Hden).
      assert (stuck fsA (auth_session_dir cfg)) as HA.
      { exists m. split; [done|]. split; [|congruence].
        apply HkeptA; [done|]. by apply auth_marker_not_profile. }
      apply HlockedB in HA as (m' & Hm' & Hin').
      exists m'. split; [done|]. apply HkeptC; [done|].
      rewrite Hname. by apply auth_marker_not_profile.
Qed.

(* ===================================================================== *)
(** * Properties of the browser binary resolver                           *)
(* ===================================================================== *)

Lemma first_existing_some (present : string → bool) (cands : list string)
    (p : string) :
  first_existing present cands = Some p ↔
  ∃ before after,
    cands = before ++ p :: after ∧ present p = true ∧
    Forall (λ q, present q = false) before.
Proof.
  induction cands as [|c cands IH]; cbn [first_existing].
  - split; [done|]. intros (before & after & Heq & _). by destruct before.
  - destruct (present c) eqn:Hc.
    + split.
      * intros [= ->]. exists [], cands. by repeat split.
      * intros (before & after & Heq & Hp & Hbefore).
        destruct before as [|b before]; [by injection Heq as ->|].
        injection Heq as -> _. apply Forall_cons in Hbefore as [Hb _].
        congruence.
    + rewrite IH. split.
      * intros (before & after & -> & Hp & Hbefore).
        exists (c :: before), after. split; [done|]. split; [done|].
        by constructor.
      * intros (before & after & Heq & Hp & Hbefore).
        destruct before as [|b before].
        { injection Heq as -> _. congruence. }
        injection Heq as -> ->. apply Forall_cons in Hbefore as [_ Hbefore].
        by exists before, after.
Qed.

Lemma first_existing_none (present : string → bool) (cands : list string) :
  first_existing present cands = None ↔
  Forall (λ q, present q = false) cands.
Proof.
  induction cands as [|c cands IH]; cbn [first_existing].
  - split; [constructor|done].
  - destruct (present c) eqn:Hc.
    + split; [done|]. intros [Hc' _]%Forall_cons. congruence.
    + rewrite IH. split; [by constructor|by intros [_ ?]%Forall_cons].
Qed.

(** X21.  An override from the environment wins and is not checked: when
    [PUPPETEER_EXECUTABLE_PATH] is set and not empty it is returned as it
    is, and otherwise [CHROME_PATH] is when it is set and not empty,
    whatever the platform and whether or not a file exists at that path. *)
Theorem resolveChromePath_override (win_join : string → string → string)
    (present : string → bool) (env : Env) (platform : Platform)
    (v : string) :
  v ≠ "" →
  (env "PUPPETEER_EXECUTABLE_PATH" = Some v →
   resolveChromePath win_join present env platform = Some v) ∧
  (env "PUPPETEER_EXECUTABLE_PATH" = None ∨
   env "PUPPETEER_EXECUTABLE_PATH" = Some "" →
   env "CHROME_PATH" = Some v →
   resolveChromePath win_join present env platform = Some v).
Proof.
  intros Hv. unfold resolveChromePath, env_value. split.
  - intros ->. by destruct v.
  - intros [-> | ->] ->; by destruct v.
Qed.

Lemma resolveChromePath_override_witness :
  resolveChromePath plain_join only_chromium
    (λ name, if String.eqb name "CHROME_PATH" then Some "/opt/chrome"
             else None)
    OtherPlatform = Some "/opt/chrome".
Proof.
  apply (resolveChromePath_override plain_join only_chromium _ OtherPlatform
           "/opt/chrome").
  - discriminate.
  - by left.
  - reflexivity.
Defined.

(** X22.  Without an override (each of the two variables unset or empty)
    the resolver returns the first well-known location of the platform,
    in the order of the list, at which a file exists, and [null] exactly
    when there is a file at none of them. *)
Theorem resolveChromePath_detects (win_join : string → string → string)
    (present : string → bool) (env : Env) (platform : Platform) :
  env "PUPPETEER_EXECUTABLE_PATH" = None ∨
  env "PUPPETEER_EXECUTABLE_PATH" = Some "" →
  env "CHROME_PATH" = None ∨ env "CHROME_PATH" = Some "" →
  (∀ p, resolveChromePath win_join present env platform = Some p ↔
        ∃ before after,
          candidates win_join env platform = before ++ p :: after ∧
          present p = true ∧ Forall (λ q, present q = false) before) ∧
  (resolveChromePath win_join present env platform = None ↔
   Forall (λ q, present q = false) (candidates win_join env platform)).
Proof.
  intros Hp Hc.
  assert (resolveChromePath win_join present env platform =
          first_existing present (candidates win_join env platform)) as ->.
  { unfold resolveChromePath, env_value.
    by destruct Hp as [-> | ->], Hc as [-> | ->]. }
  split; [intros p; apply first_existing_some|apply first_existing_none].
Qed.

Lemma resolveChromePath_detects_witness :
  resolveChromePath plain_join only_chromium no_env OtherPlatform =
  Some "/usr/bin/chromium".
Proof.
  apply (proj1 (resolveChromePath_detects plain_join only_chromium no_env
                  OtherPlatform (or_introl eq_refl) (or_introl eq_refl))).
  exists ["/usr/bin/google-chrome"; "/usr/bin/chromium-browser"],
    ["/snap/bin/chromium"; "/usr/bin/brave-browser";
     "/usr/bin/microsoft-edge"].
  split; [reflexivity|]. split; [reflexivity|]. by repeat constructor.
Defined.

(* ===================================================================== *)
(** * Further properties of the timestamp                                 *)
(* ===================================================================== *)

Lemma digit_char_inj (a b : N) :
  digit_char a = digit_char b → (a mod 10 = b mod 10)%N.
Proof.
  unfold digit_char. intros Heq.
  pose proof (N.mod_upper_bound a 10 ltac:(done)) as Ha.
  pose proof (N.mod_upper_bound b 10 ltac:(done)) as Hb.
  apply (f_equal N_of_ascii) in Heq.
  rewrite !N_ascii_embedding in Heq by lia. lia.
Qed.

Lemma pad2_inj (a b : N) : (a < 100 → b < 100 → pad2 a = pad2 b → a = b)%N.
Proof.
  unfold pad2. intros Ha Hb [= H1%digit_char_inj H0%digit_char_inj].
  pose proof (N.div_mod a 10 ltac:(done)).
  pose proof (N.div_mod b 10 ltac:(done)).
  assert (a / 10 < 10)%N by (apply N.Div0.div_lt_upper_bound; lia).
  assert (b / 10 < 10)%N by (apply N.Div0.div_lt_upper_bound; lia).
  rewrite (N.mod_small (a / 10)) in H1 by done.
  rewrite (N.mod_small (b / 10)) in H1 by done. lia.
Qed.

Lemma pad4_inj (a b : N) :
  (a <= 9999 → b <= 9999 → pad4 a = pad4 b → a = b)%N.
Proof.
  unfold pad4, pad3, pad2.
  intros Ha Hb [= H3%digit_char_inj H2%digit_char_inj H1%digit_char_inj
                  H0%digit_char_inj].
  assert (∀ n, n / 100 = n / 10 / 10 ∧ n / 1000 = n / 10 / 10 / 10)%N
    as Hdiv.
  { intros n. by rewrite !N.Div0.div_div. }
  rewrite (proj2 (Hdiv a)), (proj2 (Hdiv b)) in H3.
  rewrite (proj1 (Hdiv a)), (proj1 (Hdiv b)) in H2.
  pose proof (N.div_mod a 10 ltac:(done)).
  pose proof (N.div_mod b 10 ltac:(done)).
  pose proof (N.div_mod (a / 10) 10 ltac:(done)).
  pose proof (N.div_mod (b / 10) 10 ltac:(done)).
  pose proof (N.div_mod (a / 10 / 10) 10 ltac:(done)).
  pose proof (N.div_mod (b / 10 / 10) 10 ltac:(done)).
  assert (a / 10 / 10 / 10 < 10)%N.
  { do 3 (apply N.Div0.div_lt_upper_bound). lia. }
  assert (b / 10 / 10 / 10 < 10)%N.
  { do 3 (apply N.Div0.div_lt_upper_bound). lia. }
  rewrite (N.mod_small (a / 10 / 10 / 10)) in H3 by done.
  rewrite (N.mod_small (b / 10 / 10 / 10)) in H3 by done. lia.
Qed.

(** X23.  The rotated directory is named to the second.  Two clock
    readings in the same second give the same rotated path, whatever their
    milliseconds; two calendar readings in different seconds give
    different ones.  The name holds no colon and no dot. *)
Theorem rotation_to_the_second (cfg : Config) (d1 d2 : Date) :
  (same_second d1 d2 → stamp d1 = stamp d2) ∧
  (calendar d1 → calendar d2 → stamp d1 = stamp d2 → same_second d1 d2) ∧
  no_separator (stamp d1) = true ∧
  (stamp d1 = stamp d2 ↔
   path_join (PROFILES_ROOT cfg)
             (DEFAULT_PROFILE_NAME cfg +:+ "_" +:+ stamp d1) =
   path_join (PROFILES_ROOT cfg)
             (DEFAULT_PROFILE_NAME cfg +:+ "_" +:+ stamp d2)).
Proof.
  rewrite !stamp_to_the_second. split; [|split; [|split]].
  - intros (Hy & Hmo & Hd & Hh & Hmi & Hs).
    unfold second_stamp, iso_date. by rewrite Hy, Hmo, Hd, Hh, Hmi, Hs.
  - intros (Hy1 & Hmo1 & Hd1 & Hh1 & Hmi1 & Hs1)
           (Hy2 & Hmo2 & Hd2 & Hh2 & Hmi2 & Hs2).
    unfold second_stamp, iso_date.
    rewrite (proj2 (N.leb_le _ _) Hy1), (proj2 (N.leb_le _ _) Hy2).
    unfold pad4, pad3, pad2. cbn [String.append].
    intros [= Y3 Y2 Y1 Y0 M1 M0 D1 D0 H1 H0 I1 I0 S1 S0].
    repeat split.
    + apply pad4_inj; [done..|]. unfold pad4, pad3, pad2. congruence.
    + apply pad2_inj; [done..|]. unfold pad2. congruence.
    + apply pad2_inj; [done..|]. unfold pad2. congruence.
    + apply pad2_inj; [done..|]. unfold pad2. congruence.
    + apply pad2_inj; [done..|]. unfold pad2. congruence.
    + apply pad2_inj; [done..|]. unfold pad2. congruence.
  - unfold second_stamp.
    by rewrite !no_separator_app, iso_date_no_separator, !pad2_no_separator.
  - split; [by intros ->|].
    unfold path_join. intros [= Heq]%app_inv_head.
    by apply (inj (String.append _)), (inj (String.append _)) in Heq.
Qed.

Lemma rotation_to_the_second_witness :
  stamp sample_date =
  stamp {| year := 2024; month := 5; day := 6;
           hours := 7; minutes := 8; seconds := 9; millis := 999 |}%N.
Proof.
  apply (proj1 (rotation_to_the_second sample_cfg sample_date
                  {| year := 2024; month := 5; day := 6;
                     hours := 7; minutes := 8; seconds := 9;
                     millis := 999 |}%N)).
  by repeat split.
Defined.
